(** * geocart: geodesy and map projections on the WGS84 ellipsoid

    Shallow embedding of the numerical core of [script.js] (the same
    functions appear again in [js/geodesia.js] and [js/projections.js]).

    A JavaScript number is modelled as a real number of the Standard
    Library ([R]): every arithmetic operation is exact, and the functions
    of the [Math] object are the corresponding real functions.  Rounding
    of IEEE-754 doubles, NaN and the infinities are outside the model.
    Integer-valued results ([Math.floor], array indices, the loop counter)
    are kept in [Z] or [nat].

    Where the exact model and the doubles part:
    - sums are exact, so the order of the terms of [areaSum],
      [calculatePerimeter] and [centroidSums] does not matter, while the
      doubles are rounded term by term in the order of the list;
    - [x + 360] and [lon + 180] are exact, while on doubles a sum next to
      360 rounds to 360: [calculateAzimuth] can return 360, and a
      longitude one rounding step below 180 falls into zone 61;
    - division by 0 is 0 in [R] and NaN or an infinity on doubles: the
      first step of the mollweide iteration at the poles is 0/0, and
      [Math.tan] at a pole is [sin/0] here and a large number there;
    - [sin PI] is exactly 0, while [Math.sin(Math.PI)] is about 1.2e-16,
      so antipodal points of the equator count as coincident only here.
    Statements about rounding are made in [Binary64], on the doubles
    themselves. *)

From Stdlib Require Import Reals Lra Lia ZArith List String Psatz.
From Stdlib Require Import DecimalString Permutation.
From Stdlib Require PrimFloat.
Import ListNotations.

Open Scope bool_scope.
Open Scope R_scope.

(* ================================================================== *)
(** ** Comparisons of numbers, as booleans *)

Definition js_lt (x y : R) : bool := if Rlt_dec x y then true else false.
Definition js_ge (x y : R) : bool := if Rge_dec x y then true else false.
Definition js_gt (x y : R) : bool := if Rgt_dec x y then true else false.
Definition js_eq (x y : R) : bool := if Req_dec_T x y then true else false.

(* ================================================================== *)
(** ** The [Math] object *)

Module Math.

Definition PI : R := Rtrigo1.PI.
Definition sin : R -> R := Rtrigo_def.sin.
Definition cos : R -> R := Rtrigo_def.cos.
Definition tan : R -> R := Rtrigo1.tan.
Definition sqrt : R -> R := R_sqrt.sqrt.
Definition abs : R -> R := Rabs.
Definition log : R -> R := ln.
Definition max : R -> R -> R := Rmax.
Definition min : R -> R -> R := Rmin.

(** [Math.floor], with its integer result kept in [Z]. *)
Definition floor (x : R) : Z := Zfloor x.

(** [Math.atan2(y, x)]: the angle of the point [(x, y)], in (-PI, PI];
    [atan2(0, 0)] is [0]. *)
Definition atan2 (y x : R) : R :=
  if Rlt_dec 0 x then atan (y / x)
  else if Rlt_dec x 0 then
    if Rle_dec 0 y then atan (y / x) + PI else atan (y / x) - PI
  else if Rlt_dec 0 y then PI / 2
  else if Rlt_dec y 0 then - (PI / 2)
  else 0.

Definition atan : R -> R := Ratan.atan.
Definition exp : R -> R := Rtrigo_def.exp.

(** [Math.pow(x, y)] for a positive base [x]. *)
Definition pow (x y : R) : R := Rpower x y.

End Math.

(* ================================================================== *)
(** ** [Number.prototype.toFixed(2)]

    The sign is taken off first; [n] is the integer for which [n / 100]
    is nearest to the number, the larger one on a tie; its digits are
    printed with the point before the last two.  (For magnitudes below
    [10^21], where [toFixed] prints digits and no exponent.) *)

Definition digits_of (n : Z) : string :=
  NilZero.string_of_uint (N.to_uint (Z.to_N n)).

Definition toFixed2 (x : R) : string :=
  let neg := js_lt x 0 in
  let ax := if neg then - x else x in
  let n := Zfloor (ax * 100 + 1 / 2) in
  let m := (digits_of (n / 100) ++ "."
            ++ digits_of (n mod 100 / 10) ++ digits_of (n mod 10))%string in
  if neg then ("-" ++ m)%string else m.

(* ================================================================== *)
(** ** Section 1: the WGS84 ellipsoid *)

Module WGS84.
Definition a : R := 6378137.0.
Definition b : R := 6356752.314245.
Definition f : R := 1 / 298.257223563.
Definition e : R := 0.0818191908426.
Definition e2 : R := 0.00669437999014.
Definition ep2 : R := 0.00673949674228.
End WGS84.

(* ================================================================== *)
(** ** Section 2: geodesy *)

Definition toRadians (deg : R) : R := deg * Math.PI / 180.
Definition toDegrees (rad : R) : R := rad * 180 / Math.PI.

(** *** Vincenty's inverse formula *)

(** The variables assigned in the body of the [do ... while] loop. *)
Record VincentyVars : Type := mkVars {
  sinσ : R; cosσ : R; σ : R; sinα : R; cos2α : R; cos2σm : R;
  λ : R  (* the new approximation *)
}.

(** What the loop leaves behind: [return 0] from inside the body, or the
    variables of the last pass. *)
Inductive LoopExit : Type :=
| Coincident
| Finished (v : VincentyVars).

Section VincentyLoop.

Variables (L sinU1 cosU1 sinU2 cosU2 : R).

Definition sinσ_of (λ0 : R) : R :=
  let sinλ := Math.sin λ0 in
  let cosλ := Math.cos λ0 in
  Math.sqrt ((cosU2 * sinλ) ^ 2
             + (cosU1 * sinU2 - sinU1 * cosU2 * cosλ) ^ 2).

(** The rest of one pass, after the test [sinσ === 0] has failed. *)
Definition vincentyPass (λ0 : R) : VincentyVars :=
  let sinλ := Math.sin λ0 in
  let cosλ := Math.cos λ0 in
  let sinσ := sinσ_of λ0 in
  let cosσ := sinU1 * sinU2 + cosU1 * cosU2 * cosλ in
  let σ := Math.atan2 sinσ cosσ in
  let sinα := cosU1 * cosU2 * sinλ / sinσ in
  let cos2α := 1 - sinα ^ 2 in
  let cos2σm :=
    if js_eq cos2α 0 then 0 else cosσ - 2 * sinU1 * sinU2 / cos2α in
  let C := WGS84.f / 16 * cos2α * (4 + WGS84.f * (4 - 3 * cos2α)) in
  let λ1 :=
    L + (1 - C) * WGS84.f * sinα
        * (σ + C * sinσ * (cos2σm + C * cosσ * (-1 + 2 * cos2σm ^ 2))) in
  mkVars sinσ cosσ σ sinα cos2α cos2σm λ1.

(** The loop [do { ... } while (Math.abs(λ - λʹ) > 1e-12 && --iterLimit > 0)],
    by recursion on [iterLimit].  [passes] counts the passes already
    made; the count of passes made in all comes back with the exit. *)
Fixpoint vincentyLoop (iterLimit : nat) (λ0 : R) (passes : nat)
  : LoopExit * nat :=
  if js_eq (sinσ_of λ0) 0 then (Coincident, S passes)
  else
    let v := vincentyPass λ0 in
    if js_gt (Math.abs (λ v - λ0)) 1e-12 then
      match iterLimit with
      | S (S k as iterLimit') => vincentyLoop iterLimit' (λ v) (S passes)
      | _ => (Finished v, S passes)
      end
    else (Finished v, S passes).

(** The approximation that [k] passes reach from [λ0], none of them
    leaving the loop. *)
Definition λ_after (λ0 : R) (k : nat) : R :=
  Nat.iter k (fun l => λ (vincentyPass l)) λ0.

End VincentyLoop.

(** The variables of a pass seen from the other end of the line: the
    azimuth at the equator and the longitude difference change sign. *)
Definition mirror (v : VincentyVars) : VincentyVars :=
  mkVars (sinσ v) (cosσ v) (σ v) (- sinα v) (cos2α v) (cos2σm v) (- λ v).

Definition mirrorExit (e : LoopExit) : LoopExit :=
  match e with
  | Coincident => Coincident
  | Finished v => Finished (mirror v)
  end.

(** The distance from the variables of the last pass. *)
Definition vincentyFinal (v : VincentyVars) : R :=
  let u2 := cos2α v * (WGS84.a ^ 2 - WGS84.b ^ 2) / (WGS84.b ^ 2) in
  let A := 1 + u2 / 16384 * (4096 + u2 * (-768 + u2 * (320 - 175 * u2))) in
  let B := u2 / 1024 * (256 + u2 * (-128 + u2 * (74 - 47 * u2))) in
  let Δσ :=
    B * sinσ v
    * (cos2σm v
       + B / 4 * (cosσ v * (-1 + 2 * cos2σm v ^ 2)
                  - B / 6 * cos2σm v * (-3 + 4 * sinσ v ^ 2)
                    * (-3 + 4 * cos2σm v ^ 2))) in
  WGS84.b * A * (σ v - Δσ).

(** The reduced latitude of [φ]: [(cosU, sinU)]. *)
Definition reducedLatitude (φ : R) : R * R :=
  let tanU := (1 - WGS84.f) * Math.tan φ in
  let cosU := 1 / Math.sqrt (1 + tanU * tanU) in
  let sinU := tanU * cosU in
  (cosU, sinU).

(** The loop of [vincentyDistance] on its inputs, with the count of
    passes. *)
Definition vincentyIterate (lat1 lon1 lat2 lon2 : R) : LoopExit * nat :=
  let φ1 := toRadians lat1 in
  let φ2 := toRadians lat2 in
  let L := toRadians (lon2 - lon1) in
  let '(cosU1, sinU1) := reducedLatitude φ1 in
  let '(cosU2, sinU2) := reducedLatitude φ2 in
  vincentyLoop L sinU1 cosU1 sinU2 cosU2 100 L 0.

Definition vincentyDistance (lat1 lon1 lat2 lon2 : R) : R :=
  match fst (vincentyIterate lat1 lon1 lat2 lon2) with
  | Coincident => 0
  | Finished v => vincentyFinal v
  end.

(** *** Geodesic area *)

Record GeoPoint : Type := mkPoint { lat : R; lon : R }.

(** [pts[i]], for an index inside the array. *)
Definition pts_at (pts : list GeoPoint) (i : nat) : GeoPoint :=
  nth i pts (mkPoint 0 0).

(** What one pass of the [for] loop adds to [area]. *)
Definition areaTerm (pts : list GeoPoint) (n i : nat) : R :=
  let j := ((i + 1) mod n)%nat in
  let lat1 := toRadians (lat (pts_at pts i)) in
  let lat2 := toRadians (lat (pts_at pts j)) in
  let dLon := toRadians (lon (pts_at pts j) - lon (pts_at pts i)) in
  dLon * (2 + Math.sin lat1 + Math.sin lat2).

(** The value of [area] after the loop [for (i = 0; i < n; i++)]. *)
Definition areaSum (pts : list GeoPoint) : R :=
  let n := List.length pts in
  fold_left (fun area i => area + areaTerm pts n i) (seq 0 n) 0.

Definition calculateGeodesicArea (pts : list GeoPoint) : R :=
  if (List.length pts <? 3)%nat then 0
  else Math.abs (areaSum pts * WGS84.a * WGS84.a / 2).

(** The term of the edge from [p] to [q]. *)
Definition edgeTerm (p q : GeoPoint) : R :=
  toRadians (lon q - lon p)
  * (2 + Math.sin (toRadians (lat p)) + Math.sin (toRadians (lat q))).

(** The sum of the terms of the edges along a path, without the closing
    edge. *)
Fixpoint pathSum (pts : list GeoPoint) : R :=
  match pts with
  | p :: (q :: _) as rest => edgeTerm p q + pathSum rest
  | _ => 0
  end.

(** *** Azimuth and quadrant bearing *)

Definition calculateAzimuth (lat1 lon1 lat2 lon2 : R) : R :=
  let φ1 := toRadians lat1 in
  let φ2 := toRadians lat2 in
  let Δλ := toRadians (lon2 - lon1) in
  let y := Math.sin Δλ * Math.cos φ2 in
  let x := Math.cos φ1 * Math.sin φ2
           - Math.sin φ1 * Math.cos φ2 * Math.cos Δλ in
  let azimuth := toDegrees (Math.atan2 y x) in
  if js_lt azimuth 0 then azimuth + 360 else azimuth.

Record Rumbo : Type := mkRumbo { quadrant : string; angle : string }.

Definition azimuthToRumbo (azimuth : R) : Rumbo :=
  if js_ge azimuth 0 && js_lt azimuth 90 then
    mkRumbo "NE" (toFixed2 azimuth)
  else if js_ge azimuth 90 && js_lt azimuth 180 then
    mkRumbo "SE" (toFixed2 (180 - azimuth))
  else if js_ge azimuth 180 && js_lt azimuth 270 then
    mkRumbo "SW" (toFixed2 (azimuth - 180))
  else mkRumbo "NW" (toFixed2 (360 - azimuth)).

(** *** UTM *)

Record UTMCoordinate : Type := mkUTM {
  zone : Z; hemisphere : string; easting : string; northing : string
}.

(** [latLonToUTM] up to and including the initialisation of [northing]:
    the zone, and the values of [easting] and [northing] at that point. *)
Definition latLonToUTM_core (lat lon : R) : Z * R * R :=
  let zone := (Math.floor ((lon + 180) / 6) + 1)%Z in
  let lonOrigin := (IZR zone - 1) * 6 - 180 + 3 in
  let latRad := toRadians lat in
  let lonRad := toRadians lon in
  let lonOriginRad := toRadians lonOrigin in
  let e2 := WGS84.e2 in
  let ep2 := WGS84.ep2 in
  let N := WGS84.a / Math.sqrt (1 - e2 * Math.sin latRad ^ 2) in
  let T := Math.tan latRad ^ 2 in
  let C := ep2 * Math.cos latRad ^ 2 in
  let A := Math.cos latRad * (lonRad - lonOriginRad) in
  let M := WGS84.a * (
      (1 - e2 / 4 - 3 * e2 ^ 2 / 64 - 5 * e2 ^ 3 / 256) * latRad
      - (3 * e2 / 8 + 3 * e2 ^ 2 / 32 + 45 * e2 ^ 3 / 1024)
        * Math.sin (2 * latRad)
      + (15 * e2 ^ 2 / 256 + 45 * e2 ^ 3 / 1024) * Math.sin (4 * latRad)
      - (35 * e2 ^ 3 / 3072) * Math.sin (6 * latRad)) in
  let k0 := 0.9996 in
  let easting :=
    k0 * N * (A + (1 - T + C) * A ^ 3 / 6
              + (5 - 18 * T + T ^ 2 + 72 * C - 58 * ep2) * A ^ 5 / 120)
    + 500000 in
  let northing :=
    k0 * (M + N * Math.tan latRad
              * (A ^ 2 / 2 + (5 - T + 9 * C + 4 * C ^ 2) * A ^ 4 / 24
                 + (61 - 58 * T + T ^ 2 + 600 * C - 330 * ep2)
                   * A ^ 6 / 720)) in
  (zone, easting, northing).

Definition latLonToUTM (lat lon : R) : UTMCoordinate :=
  let '(zone, easting, northing0) := latLonToUTM_core lat lon in
  let northing :=
    if js_lt lat 0 then northing0 + 10000000 else northing0 in
  let hemisphere := if js_ge lat 0 then "N"%string else "S"%string in
  mkUTM zone hemisphere (toFixed2 easting) (toFixed2 northing).

(* ================================================================== *)
(** ** Section 3: map projections *)

Record PlanarPoint : Type := mkPlanar { x : R; y : R }.

(** [arr[i]]: [None] stands for [undefined]. *)
Definition js_index {A : Type} (arr : list A) (i : Z) : option A :=
  if (i <? 0)%Z then None else nth_error arr (Z.to_nat i).

Definition robinsonTable : list (R * R * R) :=
  [ (0, 1.0000, 0.0000); (5, 0.9986, 0.0620); (10, 0.9954, 0.1240);
    (15, 0.9900, 0.1860); (20, 0.9822, 0.2480); (25, 0.9730, 0.3100);
    (30, 0.9600, 0.3720); (35, 0.9427, 0.4340); (40, 0.9216, 0.4958);
    (45, 0.8962, 0.5571); (50, 0.8679, 0.6176); (55, 0.8350, 0.6769);
    (60, 0.7986, 0.7346); (65, 0.7597, 0.7903); (70, 0.7186, 0.8435);
    (75, 0.6732, 0.8936); (80, 0.6213, 0.9394); (85, 0.5722, 0.9761);
    (90, 0.5322, 1.0000) ].

(** The row index of the robinson branch, after the clamp. *)
Definition robinsonIdx (lat : R) : Z :=
  let absLat := Math.abs lat in
  let idx := Math.floor (absLat / 5) in
  if (idx >=? Z.of_nat (List.length robinsonTable) - 1)%Z
  then (Z.of_nat (List.length robinsonTable) - 2)%Z
  else idx.

(** One pass of the Newton iteration of the mollweide branch. *)
Definition mollweideStep (latRad theta : R) : R :=
  theta - (2 * theta + Math.sin (2 * theta) - Math.PI * Math.sin latRad)
          / (2 + 2 * Math.cos (2 * theta)).

(** [projectPoint]; [None] is the [TypeError] of reading a field of
    [undefined], which only an index outside [robinsonTable] can raise. *)
Definition projectPoint (lat lon : R) (projection : string)
    (width height : R) : option PlanarPoint :=
  let latRad := toRadians lat in
  let lonRad := toRadians lon in
  let result (x y : R) := Some (mkPlanar (x * 100) (y * 100)) in
  if String.eqb projection "mercator" then
    let x := (lon + 180) / 360 in
    let maxLat := 85 in
    let clampedLat := Math.max (- maxLat) (Math.min maxLat lat) in
    let y := 0.5 - Math.log (Math.tan (Math.PI / 4 + toRadians clampedLat / 2))
                   / (2 * Math.PI) in
    result x y
  else if String.eqb projection "mollweide" then
    let theta := Nat.iter 10 (mollweideStep latRad) latRad in
    let x := 0.5 + (lonRad / Math.PI) * Math.cos theta * 0.4 in
    let y := 0.5 - Math.sin theta * 0.45 in
    result x y
  else if String.eqb projection "sinusoidal" then
    let x := 0.5 + (lonRad * Math.cos latRad) / Math.PI * 0.45 in
    let y := 0.5 - latRad / Math.PI * 0.9 in
    result x y
  else if String.eqb projection "robinson" then
    let absLat := Math.abs lat in
    let idx := robinsonIdx lat in
    match js_index robinsonTable idx, js_index robinsonTable (idx + 1) with
    | Some (r0, r1, r2), Some (_, s1, s2) =>
        let t := (absLat - r0) / 5 in
        let plen := r1 * (1 - t) + s1 * t in
        let pdfe := r2 * (1 - t) + s2 * t in
        let x := 0.5 + (lon / 180) * plen * 0.45 in
        let y := 0.5 - (if js_lt lat 0 then -1 else 1) * pdfe * 0.45 in
        result x y
    | _, _ => None
    end
  else if String.eqb projection "lambert" then
    let x := (lon + 180) / 360 in
    let y := 0.5 - Math.sin latRad * 0.5 in
    result x y
  else
    let x := (lon + 180) / 360 in
    let y := (90 - lat) / 180 in
    result x y.

(** [inverseProject] of [js/projections.js]: from the plane, normalised
    to the unit square, back to the geographic coordinates. *)
Definition inverseProject (nx ny : R) (projection : string) : GeoPoint :=
  if String.eqb projection "mercator" then
    let lon := nx * 360 - 180 in
    let lat :=
      toDegrees (2 * Math.atan (Math.exp ((0.5 - ny) * 2 * Math.PI))
                 - Math.PI / 2) in
    let lat := Math.max (-85) (Math.min 85 lat) in
    mkPoint lat lon
  else
    let lon := nx * 360 - 180 in
    let lat := 90 - ny * 180 in
    mkPoint lat lon.

Definition getScaleFactor (lat : R) (projection : string) : R :=
  let latRad := toRadians (Math.abs lat) in
  if String.eqb projection "mercator" then 1 / Math.cos latRad
  else if String.eqb projection "lambert" then 1 / Math.cos latRad
  else 1.

(* ================================================================== *)
(** ** Section 2, continued: sexagesimal degrees, polygons, radii *)

(** [parseFloat(v) || 0], on the result of [parseFloat]: [None] is NaN. *)
Definition orZero (v : option R) : R :=
  match v with
  | Some r => r
  | None => 0
  end.

Definition dmsToDecimal (deg min sec : option R) (direction : string) : R :=
  let decimal :=
    Math.abs (orZero deg) + orZero min / 60 + orZero sec / 3600 in
  if String.eqb direction "S" || String.eqb direction "W"
  then - decimal else decimal.

Module DMS.
Record t : Type := mk { deg : Z; min : Z; sec : string }.
End DMS.

(** [decimalToDMS] before the seconds are printed. *)
Definition decimalToDMS_core (decimal : R) : Z * Z * R :=
  let abs := Math.abs decimal in
  let deg := Math.floor abs in
  let minFloat := (abs - IZR deg) * 60 in
  let min := Math.floor minFloat in
  let sec := (minFloat - IZR min) * 60 in
  (deg, min, sec).

Definition decimalToDMS (decimal : R) : DMS.t :=
  let '(deg, min, sec) := decimalToDMS_core decimal in
  DMS.mk deg min (toFixed2 sec).

(** What one pass of the loop of [calculatePerimeter] adds. *)
Definition perimeterTerm (pts : list GeoPoint) (i : nat) : R :=
  let j := ((i + 1) mod List.length pts)%nat in
  vincentyDistance (lat (pts_at pts i)) (lon (pts_at pts i))
                   (lat (pts_at pts j)) (lon (pts_at pts j)).

Definition calculatePerimeter (pts : list GeoPoint) : R :=
  if (List.length pts <? 2)%nat then 0
  else
    fold_left (fun perimeter i => perimeter + perimeterTerm pts i)
      (seq 0 (List.length pts)) 0.

(** [sumLat] and [sumLon] after [pts.forEach]. *)
Definition centroidSums (pts : list GeoPoint) : R * R :=
  fold_left (fun '(sumLat, sumLon) p => (sumLat + lat p, sumLon + lon p))
    pts (0, 0).

Definition calculateCentroid (pts : list GeoPoint) : GeoPoint :=
  if (List.length pts =? 0)%nat then mkPoint 0 0
  else
    let '(sumLat, sumLon) := centroidSums pts in
    mkPoint (sumLat / INR (List.length pts)) (sumLon / INR (List.length pts)).

(** The loops of [calculateGeodesicArea] and [calculatePerimeter] have one
    shape: a sum of [g pts[i] pts[(i + 1) % n]] over the indices. *)
Definition circSum (g : GeoPoint -> GeoPoint -> R) (pts : list GeoPoint) : R :=
  let n := List.length pts in
  fold_left
    (fun acc i => acc + g (pts_at pts i) (pts_at pts ((i + 1) mod n)%nat))
    (seq 0 n) 0.

(** The same sum along the path, without the closing edge. *)
Fixpoint pathSumOf (g : GeoPoint -> GeoPoint -> R) (pts : list GeoPoint) : R :=
  match pts with
  | p :: (q :: _) as rest => g p q + pathSumOf g rest
  | _ => 0
  end.

(** The geodesic distance between two vertices. *)
Definition geodesicEdge (p q : GeoPoint) : R :=
  vincentyDistance (lat p) (lon p) (lat q) (lon q).

Definition radiusMeridian (lat : R) : R :=
  let sinLat := Math.sin (toRadians lat) in
  WGS84.a * (1 - WGS84.e2) / Math.pow (1 - WGS84.e2 * sinLat * sinLat) 1.5.

Definition radiusPrimeVertical (lat : R) : R :=
  let sinLat := Math.sin (toRadians lat) in
  WGS84.a / Math.sqrt (1 - WGS84.e2 * sinLat * sinLat).

(* ================================================================== *)
(** ** Section 4: the sphere of the 3D view *)

Module Vector3.
Record t : Type := mk { x : R; y : R; z : R }.
End Vector3.

(** [latLonToVector3(lat, lon, radius = 2)]: [None] is an argument left
    out. *)
Definition latLonToVector3 (lat lon : R) (radius : option R) : Vector3.t :=
  let radius := match radius with Some r => r | None => 2 end in
  let phi := (90 - lat) * (Math.PI / 180) in
  let theta := (lon + 180) * (Math.PI / 180) in
  Vector3.mk (- radius * Math.sin phi * Math.cos theta)
             (radius * Math.cos phi)
             (radius * Math.sin phi * Math.sin theta).

(* ================================================================== *)
(** ** Section 5: what the component derives from its points *)

Module AzimuthRow.
Record t : Type := mk { from : nat; to : nat; azimuth : R; distance : R }.
End AzimuthRow.

(** The table [azimuths] of [PolygonDrawer]: one row for each pair of
    consecutive points, [points.slice(0, -1).map((p, i) => ...)]. *)
Definition azimuths (points : list GeoPoint) : list AzimuthRow.t :=
  if (2 <=? List.length points)%nat then
    map (fun '(i, p) =>
           let q := pts_at points (i + 1) in
           AzimuthRow.mk (i + 1) (i + 2)
             (calculateAzimuth (lat p) (lon p) (lat q) (lon q))
             (vincentyDistance (lat p) (lon p) (lat q) (lon q)))
      (combine (seq 0 (List.length (removelast points))) (removelast points))
  else [].

(** The row of index [i] of that table. *)
Definition azimuthRow (points : list GeoPoint) (i : nat) : AzimuthRow.t :=
  let p := pts_at points i in
  let q := pts_at points (i + 1) in
  AzimuthRow.mk (i + 1) (i + 2)
    (calculateAzimuth (lat p) (lon p) (lat q) (lon q))
    (vincentyDistance (lat p) (lon p) (lat q) (lon q)).

(** [utmCentroid] of [PolygonDrawer]: [None] is [null]. *)
Definition utmCentroid (points : list GeoPoint) : option UTMCoordinate :=
  let centroid := calculateCentroid points in
  if (0 <? List.length points)%nat
  then Some (latLonToUTM (lat centroid) (lon centroid))
  else None.

(* ================================================================== *)
(** ** The same functions on IEEE-754 doubles

    Where a property hinges on rounding, the function is written once
    more on the binary64 numbers of the kernel, with the operations
    [+ - * /] and the comparisons of IEEE-754, in the order in which the
    source applies them. *)

Module Binary64.

Import PrimFloat.
#[local] Open Scope float_scope.

(** [Math.PI], the double nearest to the number. *)
Definition PI : float := 0x1.921fb54442d18p+1.

Definition toRadians (deg : float) : float := deg * PI / 180.
Definition toDegrees (rad : float) : float := rad * 180 / PI.

(** [Math.sin], [Math.cos] and [Math.atan2] belong to the platform and
    not to the repository: the functions take them as a parameter. *)
Record Libm : Set := mkLibm {
  sin : float -> float;
  cos : float -> float;
  atan2 : float -> float -> float
}.

Definition calculateAzimuth (m : Libm) (lat1 lon1 lat2 lon2 : float)
  : float :=
  let φ1 := toRadians lat1 in
  let φ2 := toRadians lat2 in
  let Δλ := toRadians (lon2 - lon1) in
  let y := sin m Δλ * cos m φ2 in
  let x := cos m φ1 * sin m φ2 - sin m φ1 * cos m φ2 * cos m Δλ in
  let azimuth := toDegrees (atan2 m y x) in
  if azimuth <? 0 then azimuth + 360 else azimuth.

Record GeoPoint : Set := mkPoint { lat : float; lon : float }.

Definition pts_at (pts : list GeoPoint) (i : nat) : GeoPoint :=
  nth i pts (mkPoint 0 0).

(** [WGS84.a]. *)
Definition a : float := 6378137.

Definition calculateGeodesicArea (m : Libm) (pts : list GeoPoint) : float :=
  if (List.length pts <? 3)%nat then 0
  else
    let n := List.length pts in
    let area :=
      fold_left
        (fun area i =>
           let j := ((i + 1) mod n)%nat in
           let lat1 := toRadians (lat (pts_at pts i)) in
           let lat2 := toRadians (lat (pts_at pts j)) in
           let dLon :=
             toRadians (lon (pts_at pts j) - lon (pts_at pts i)) in
           area + dLon * (2 + sin m lat1 + sin m lat2))
        (seq 0 n) 0 in
    abs (area * a * a / 2).

(** The values of [Math.sin], [Math.cos] and [Math.atan2] at the few
    arguments that the examples of this file reach: [sin 0 = 0] and
    [cos 0 = 1], which ECMAScript fixes, and at [-PI], [toRadians 10] and
    [toRadians 20] the doubles nearest to the exact sine and cosine, as
    at [(y, 0.5)] the double nearest to the exact angle.  NaN stands for
    every argument that no example reaches. *)
Definition libm : Libm :=
  mkLibm
    (fun v =>
       if v =? 0 then 0
       else if v =? - PI then -0x1.1a62633145c07p-53
       else if v =? 0x1.657184ae74487p-3 then 0x1.63a1a7e0b7389p-3
       else if v =? 0x1.657184ae74487p-2 then 0x1.5e3a8748a0bf5p-2
       else nan)
    (fun v =>
       if v =? 0 then 1
       else if v =? - PI then -1
       else if v =? 0x1.657184ae74487p-3 then 0x1.f838b8c811c17p-1
       else if v =? 0x1.657184ae74487p-2 then 0x1.e11f642522d1cp-1
       else nan)
    (fun y x =>
       if (y =? -0x1.095abe607e330p-53) && (x =? 0.5)
       then -0x1.095abe607e330p-52
       else nan).

End Binary64.

(* ================================================================== *)
(** * Properties *)

(** ** Comparisons *)

Lemma js_lt_spec (x y : R) : js_lt x y = true <-> x < y.
Proof. unfold js_lt. destruct (Rlt_dec x y); split; intros; (easy || lra). Qed.

Lemma js_ge_spec (x y : R) : js_ge x y = true <-> x >= y.
Proof. unfold js_ge. destruct (Rge_dec x y); split; intros; (easy || lra). Qed.

Lemma js_gt_spec (x y : R) : js_gt x y = true <-> x > y.
Proof. unfold js_gt. destruct (Rgt_dec x y); split; intros; (easy || lra). Qed.

Lemma js_eq_spec (x y : R) : js_eq x y = true <-> x = y.
Proof. unfold js_eq. destruct (Req_dec_T x y); split; intros; (easy || lra). Qed.

Lemma js_lt_true (x y : R) : x < y -> js_lt x y = true.
Proof. apply js_lt_spec. Qed.

Lemma js_lt_false (x y : R) : y <= x -> js_lt x y = false.
Proof.
  intros H. destruct (js_lt x y) eqn:E; [|reflexivity].
  apply js_lt_spec in E. lra.
Qed.

Lemma js_ge_true (x y : R) : y <= x -> js_ge x y = true.
Proof. intros H. apply js_ge_spec. lra. Qed.

Lemma js_ge_false (x y : R) : x < y -> js_ge x y = false.
Proof.
  intros H. destruct (js_ge x y) eqn:E; [|reflexivity].
  apply js_ge_spec in E. lra.
Qed.

Lemma js_eq_false (x y : R) : js_eq x y = false -> x <> y.
Proof. intros E H. apply js_eq_spec in H. congruence. Qed.

Lemma js_gt_false (x y : R) : js_gt x y = false -> x <= y.
Proof.
  intros E. destruct (Rle_dec x y) as [H|H]; [exact H|].
  assert (Hgt : js_gt x y = true) by (apply js_gt_spec; lra).
  congruence.
Qed.

Lemma js_eq_refl (x : R) : js_eq x x = true.
Proof. now apply js_eq_spec. Qed.

Ltac js_cmp :=
  repeat first
    [ rewrite js_lt_true by lra | rewrite js_lt_false by lra
    | rewrite js_ge_true by lra | rewrite js_ge_false by lra ].

(** ** Angles *)

Lemma toRadians_0 : toRadians 0 = 0.
Proof. unfold toRadians. lra. Qed.

Lemma toRadians_swap (lon1 lon2 : R) :
  toRadians (lon1 - lon2) = - toRadians (lon2 - lon1).
Proof. unfold toRadians. lra. Qed.

Lemma toRadians_opp (deg : R) : toRadians (- deg) = - toRadians deg.
Proof. unfold toRadians. lra. Qed.

Lemma tan_opp_sqr (t : R) : Math.tan (- t) ^ 2 = Math.tan t ^ 2.
Proof. unfold Math.tan. rewrite tan_neg. ring. Qed.

Lemma sin_opp_sqr (t : R) : Math.sin (- t) ^ 2 = Math.sin t ^ 2.
Proof. unfold Math.sin. rewrite sin_neg. ring. Qed.

Lemma sin_opp (t : R) : Math.sin (- t) = - Math.sin t.
Proof. unfold Math.sin. apply sin_neg. Qed.

Lemma cos_opp (t : R) : Math.cos (- t) = Math.cos t.
Proof. unfold Math.cos. apply cos_neg. Qed.

Lemma toRadians_90 : toRadians 90 = PI / 2.
Proof. unfold toRadians, Math.PI. lra. Qed.

Lemma toDegrees_PI2 : toDegrees (Math.PI / 2) = 90.
Proof.
  unfold toDegrees, Math.PI. pose proof PI_RGT_0. field. lra.
Qed.

(** ** [toFixed(2)] *)

Lemma toFixed2_nonneg (v : R) (n : Z) :
  0 <= v ->
  IZR n <= v * 100 + 1 / 2 < IZR n + 1 ->
  toFixed2 v
  = (digits_of (n / 100) ++ "."
     ++ digits_of (n mod 100 / 10) ++ digits_of (n mod 10))%string.
Proof.
  intros Hv Hn. unfold toFixed2.
  rewrite js_lt_false by lra.
  now rewrite (Zfloor_eq n) by exact Hn.
Qed.

Lemma toFixed2_0 : toFixed2 0 = "0.00"%string.
Proof. rewrite (toFixed2_nonneg 0 0) by lra. reflexivity. Qed.

Lemma toFixed2_90 : toFixed2 90 = "90.00"%string.
Proof. rewrite (toFixed2_nonneg 90 9000) by lra. reflexivity. Qed.

Lemma toFixed2_neg (v : R) (n : Z) :
  v < 0 ->
  IZR n <= - v * 100 + 1 / 2 < IZR n + 1 ->
  toFixed2 v
  = ("-" ++ digits_of (n / 100) ++ "."
     ++ digits_of (n mod 100 / 10) ++ digits_of (n mod 10))%string.
Proof.
  intros Hv Hn. unfold toFixed2.
  rewrite js_lt_true by lra.
  now rewrite (Zfloor_eq n) by exact Hn.
Qed.

Example toFixed2_rounds_up : toFixed2 45.678 = "45.68"%string.
Proof. rewrite (toFixed2_nonneg _ 4568) by lra. reflexivity. Qed.

Example toFixed2_tie : toFixed2 0.005 = "0.01"%string.
Proof. rewrite (toFixed2_nonneg _ 1) by lra. reflexivity. Qed.

Example toFixed2_pads : toFixed2 7.5 = "7.50"%string.
Proof. rewrite (toFixed2_nonneg _ 750) by lra. reflexivity. Qed.

Example toFixed2_negative : toFixed2 (-0.5) = "-0.50"%string.
Proof. rewrite (toFixed2_neg _ 50) by lra. reflexivity. Qed.

(** ** Quadrant bearing *)

(** C4. At the four quadrant boundaries the intervals are closed below
    and open above: azimuth 0 is NE with angle 0.00, 90 is SE with angle
    90.00, 180 is SW with angle 0.00 and 270 is NW with angle 90.00. *)
Theorem azimuthToRumbo_boundaries :
  azimuthToRumbo 0 = mkRumbo "NE" "0.00"
  /\ azimuthToRumbo 90 = mkRumbo "SE" "90.00"
  /\ azimuthToRumbo 180 = mkRumbo "SW" "0.00"
  /\ azimuthToRumbo 270 = mkRumbo "NW" "90.00".
Proof.
  unfold azimuthToRumbo. repeat split; js_cmp; cbn [andb].
  - now rewrite toFixed2_0.
  - replace (180 - 90) with 90 by lra. now rewrite toFixed2_90.
  - replace (180 - 180) with 0 by lra. now rewrite toFixed2_0.
  - replace (360 - 270) with 90 by lra. now rewrite toFixed2_90.
Qed.

(** The quadrants in general: each interval contains its lower end. *)
Lemma azimuthToRumbo_quadrant (azimuth : R) :
  (0 <= azimuth < 90 -> quadrant (azimuthToRumbo azimuth) = "NE"%string)
  /\ (90 <= azimuth < 180 -> quadrant (azimuthToRumbo azimuth) = "SE"%string)
  /\ (180 <= azimuth < 270 -> quadrant (azimuthToRumbo azimuth) = "SW"%string)
  /\ (270 <= azimuth -> quadrant (azimuthToRumbo azimuth) = "NW"%string).
Proof.
  unfold azimuthToRumbo.
  repeat split; intros H; js_cmp; reflexivity.
Qed.

(** ** Projections *)

Lemma projectPoint_default_at (lat lon : R) (projection : string)
    (width height : R) :
  ~ In projection
      ["mercator"; "mollweide"; "sinusoidal"; "robinson"; "lambert"]%string ->
  projectPoint lat lon projection width height
  = Some (mkPlanar ((lon + 180) / 360 * 100) ((90 - lat) / 180 * 100)).
Proof.
  intros Hid. unfold projectPoint.
  repeat match goal with
  | |- context [String.eqb projection ?s] =>
      destruct (String.eqb_spec projection s) as [->|_];
      [ exfalso; apply Hid; cbn; tauto | ]
  end.
  reflexivity.
Qed.

(** C8. A projection id that is none of mercator, mollweide, sinusoidal,
    robinson and lambert reaches the [default] case: the point returned is
    the equirectangular one, x = (lon+180)/360*100, y = (90-lat)/180*100. *)
Theorem projectPoint_default (lat lon : R) (projection : string)
    (width height : R) :
  ~ In projection
      ["mercator"; "mollweide"; "sinusoidal"; "robinson"; "lambert"]%string ->
  projectPoint lat lon projection width height
  = Some (mkPlanar ((lon + 180) / 360 * 100) ((90 - lat) / 180 * 100)).
Proof. apply projectPoint_default_at. Qed.

Lemma projectPoint_default_witness :
  projectPoint 10 20 "equirectangular" 100 100
  = Some (mkPlanar ((20 + 180) / 360 * 100) ((90 - 10) / 180 * 100)).
Proof.
  apply (projectPoint_default 10 20 "equirectangular" 100 100).
  cbn. intuition discriminate.
Defined.

Example projectPoint_origin :
  projectPoint 0 0 "equirectangular" 100 100 = Some (mkPlanar 50 50).
Proof.
  rewrite projectPoint_default_at by (cbn; intuition discriminate).
  f_equal. f_equal; lra.
Qed.

Lemma robinsonTable_length : List.length robinsonTable = 19%nat.
Proof. reflexivity. Qed.

Lemma robinsonIdx_range (lat : R) : (0 <= robinsonIdx lat <= 17)%Z.
Proof.
  unfold robinsonIdx. rewrite robinsonTable_length.
  assert (H0 : (0 <= Math.floor (Math.abs lat / 5))%Z).
  { apply Zfloor_lub. unfold Math.abs.
    pose proof (Rabs_pos lat). lra. }
  destruct (Z.geb_spec (Math.floor (Math.abs lat / 5)) (Z.of_nat 19 - 1)); lia.
Qed.

Example robinsonIdx_equator : robinsonIdx 0 = 0%Z.
Proof.
  unfold robinsonIdx, Math.floor, Math.abs. rewrite Rabs_R0.
  rewrite (Zfloor_eq 0) by lra. reflexivity.
Qed.

Example robinsonIdx_pole : robinsonIdx 90 = 17%Z.
Proof.
  unfold robinsonIdx, Math.floor, Math.abs. rewrite Rabs_pos_eq by lra.
  rewrite (Zfloor_eq 18) by lra. reflexivity.
Qed.

Example robinsonIdx_beyond : robinsonIdx (-1000) = 17%Z.
Proof.
  unfold robinsonIdx, Math.floor, Math.abs. rewrite Rabs_left by lra.
  rewrite (Zfloor_eq 200) by lra. reflexivity.
Qed.

Lemma js_index_in_range {A : Type} (arr : list A) (i : Z) :
  (0 <= i < Z.of_nat (List.length arr))%Z -> exists a, js_index arr i = Some a.
Proof.
  intros Hi. unfold js_index.
  destruct (Z.ltb_spec i 0); [lia|].
  destruct (nth_error arr (Z.to_nat i)) eqn:E; [now eexists|].
  apply nth_error_None in E. lia.
Qed.

(** C10. In the robinson branch the row index is [floor(|lat|/5)] clamped
    from above to 17, so for every latitude it lies between 0 and 17; the
    rows [idx] and [idx+1] both exist in the table of 19 rows, and the
    branch returns a point. *)
Theorem robinson_index_in_bounds (lat : R) :
  let idx := robinsonIdx lat in
  idx = Z.min (Math.floor (Math.abs lat / 5)) 17
  /\ (0 <= idx <= 17)%Z
  /\ (exists row, js_index robinsonTable idx = Some row)
  /\ (exists row, js_index robinsonTable (idx + 1) = Some row)
  /\ (forall lon width height,
        projectPoint lat lon "robinson" width height <> None).
Proof.
  intros idx. pose proof (robinsonIdx_range lat) as Hr. fold idx in Hr.
  assert (H1 : exists row, js_index robinsonTable idx = Some row).
  { apply js_index_in_range. rewrite robinsonTable_length. lia. }
  assert (H2 : exists row, js_index robinsonTable (idx + 1) = Some row).
  { apply js_index_in_range. rewrite robinsonTable_length. lia. }
  repeat split; try lia; try assumption.
  - unfold idx, robinsonIdx. rewrite robinsonTable_length.
    destruct (Z.geb_spec (Math.floor (Math.abs lat / 5)) (Z.of_nat 19 - 1));
      lia.
  - intros lon width height. unfold projectPoint.
    cbn [String.eqb Ascii.eqb Bool.eqb]. fold idx.
    destruct H1 as [[[r0 r1] r2] ->], H2 as [[[s0 s1] s2] ->].
    discriminate.
Qed.

(** ** UTM *)

Lemma latLonToUTM_zone (lat lon : R) :
  zone (latLonToUTM lat lon) = (Math.floor ((lon + 180) / 6) + 1)%Z.
Proof. reflexivity. Qed.

Example zone_greenwich : zone (latLonToUTM 0 0) = 31%Z.
Proof.
  rewrite latLonToUTM_zone. unfold Math.floor.
  rewrite (Zfloor_eq 30) by lra. reflexivity.
Qed.

Example zone_madrid : zone (latLonToUTM 40.4168 (-3.7038)) = 30%Z.
Proof.
  rewrite latLonToUTM_zone. unfold Math.floor.
  rewrite (Zfloor_eq 29) by lra. reflexivity.
Qed.

Example zone_west_end : zone (latLonToUTM 0 (-180)) = 1%Z.
Proof.
  rewrite latLonToUTM_zone. unfold Math.floor.
  rewrite (Zfloor_eq 0) by lra. reflexivity.
Qed.

(** West of the antimeridian the zone is one of the 60. *)
Lemma latLonToUTM_zone_range (lat lon : R) :
  -180 <= lon < 180 -> (1 <= zone (latLonToUTM lat lon) <= 60)%Z.
Proof.
  intros Hlon. rewrite latLonToUTM_zone. unfold Math.floor.
  pose proof (Zfloor_bound ((lon + 180) / 6)) as [Hlo Hhi].
  assert (H0 : (0 <= Zfloor ((lon + 180) / 6))%Z) by (apply Zfloor_lub; lra).
  assert (H1 : (Zfloor ((lon + 180) / 6) < 60)%Z) by (apply lt_IZR; lra).
  lia.
Qed.

(** C2. On the antimeridian, longitude 180, the zone computed by
    [floor((lon+180)/6)+1] is 61, outside the range 1 to 60. *)
Theorem latLonToUTM_zone_at_180 (lat : R) :
  zone (latLonToUTM lat 180) = 61%Z
  /\ -180 <= 180 <= 180
  /\ ~ (1 <= zone (latLonToUTM lat 180) <= 60)%Z.
Proof.
  assert (H : zone (latLonToUTM lat 180) = 61%Z).
  { rewrite latLonToUTM_zone. unfold Math.floor.
    rewrite (Zfloor_eq 60) by lra. reflexivity. }
  rewrite H. repeat split; try lra. lia.
Qed.

(** The zone is a function of the longitude alone. *)
Lemma latLonToUTM_core_zone_lat (lat lat' lon : R) :
  fst (fst (latLonToUTM_core lat lon)) = fst (fst (latLonToUTM_core lat' lon)).
Proof. reflexivity. Qed.

(** The easting before rounding is an even function of the latitude. *)
Lemma latLonToUTM_core_easting_even (lat lon : R) :
  snd (fst (latLonToUTM_core (- lat) lon))
  = snd (fst (latLonToUTM_core lat lon)).
Proof.
  unfold latLonToUTM_core. cbn [fst snd].
  rewrite toRadians_opp, tan_opp_sqr, sin_opp_sqr, cos_opp.
  reflexivity.
Qed.

(** C6. South of the equator ([lat < 0]) the hemisphere is S and
    10,000,000 is added to the northing before it is rounded; otherwise
    ([lat >= 0]) the hemisphere is N and nothing is added.  The zone and
    the easting are the values of their formulas in both cases, and do not
    change when the sign of the latitude does. *)
Theorem latLonToUTM_hemisphere (lat lon : R) :
  let '(zone0, easting0, northing0) := latLonToUTM_core lat lon in
  let utm := latLonToUTM lat lon in
  (lat < 0 ->
     hemisphere utm = "S"%string
     /\ northing utm = toFixed2 (northing0 + 10000000))
  /\ (lat >= 0 ->
     hemisphere utm = "N"%string /\ northing utm = toFixed2 northing0)
  /\ zone utm = zone0
  /\ easting utm = toFixed2 easting0
  /\ zone (latLonToUTM (- lat) lon) = zone utm
  /\ easting (latLonToUTM (- lat) lon) = easting utm.
Proof.
  pose proof (latLonToUTM_core_easting_even lat lon) as Heven.
  pose proof (latLonToUTM_core_zone_lat (- lat) lat lon) as Hzone.
  unfold latLonToUTM.
  destruct (latLonToUTM_core (- lat) lon) as [[z' e'] n'].
  destruct (latLonToUTM_core lat lon) as [[z0 e0] n0].
  cbn [fst snd] in Heven, Hzone. cbn [zone easting hemisphere northing].
  subst z' e'.
  repeat split; intros; js_cmp; reflexivity.
Qed.

Lemma latLonToUTM_hemisphere_witness :
  hemisphere (latLonToUTM (-1) 0) = "S"%string
  /\ hemisphere (latLonToUTM 1 0) = "N"%string.
Proof.
  split.
  - pose proof (latLonToUTM_hemisphere (-1) 0) as H.
    destruct (latLonToUTM_core (-1) 0) as [[z0 e0] n0].
    apply H. lra.
  - pose proof (latLonToUTM_hemisphere 1 0) as H.
    destruct (latLonToUTM_core 1 0) as [[z0 e0] n0].
    apply H. lra.
Defined.

(** ** Azimuth *)

Lemma atan2_range (y x : R) : - Math.PI < Math.atan2 y x <= Math.PI.
Proof.
  unfold Math.atan2, Math.PI.
  pose proof PI_RGT_0 as Hpi.
  pose proof (atan_bound (y / x)) as Hb.
  destruct (Rlt_dec 0 x) as [Hx|Hx]; [lra|].
  destruct (Rlt_dec x 0) as [Hx'|Hx'].
  - assert (Hinv : / x < 0) by now apply Rinv_lt_0_compat.
    destruct (Rle_dec 0 y) as [Hy|Hy].
    + assert (Hq : y / x <= 0) by (unfold Rdiv; nra).
      assert (Ha : atan (y / x) <= 0).
      { destruct Hq as [Hq|Hq].
        - left. rewrite <- atan_0. now apply atan_increasing.
        - rewrite Hq, atan_0. lra. }
      lra.
    + assert (Hq : 0 < y / x) by (unfold Rdiv; nra).
      assert (Ha : 0 < atan (y / x)).
      { rewrite <- atan_0. now apply atan_increasing. }
      lra.
  - destruct (Rlt_dec 0 y); [lra|]. destruct (Rlt_dec y 0); lra.
Qed.

Lemma toDegrees_range (rad : R) :
  - Math.PI < rad <= Math.PI -> -180 < toDegrees rad <= 180.
Proof.
  unfold toDegrees, Math.PI. intros [Hlo Hhi].
  pose proof PI_RGT_0 as Hpi.
  split.
  - apply Rmult_lt_reg_r with PI; [assumption|].
    unfold Rdiv. rewrite Rmult_assoc, Rinv_l by lra. lra.
  - apply Rmult_le_reg_r with PI; [assumption|].
    unfold Rdiv. rewrite Rmult_assoc, Rinv_l by lra. lra.
Qed.

Example calculateAzimuth_east : calculateAzimuth 0 0 0 90 = 90.
Proof.
  unfold calculateAzimuth.
  replace (90 - 0) with 90 by lra.
  rewrite toRadians_0, toRadians_90.
  unfold Math.sin, Math.cos. rewrite sin_0, cos_0, sin_PI2, cos_PI2.
  replace (1 * 0 - 0 * 1 * 0) with 0 by lra. rewrite Rmult_1_l.
  unfold Math.atan2.
  destruct (Rlt_dec 0 0) as [H|_]; [lra|].
  destruct (Rlt_dec 0 1) as [_|H]; [|lra].
  rewrite toDegrees_PI2. now rewrite js_lt_false by lra.
Qed.

Example calculateAzimuth_west : calculateAzimuth 0 0 0 (-90) = 270.
Proof.
  unfold calculateAzimuth.
  replace (-90 - 0) with (- (90)) by lra.
  rewrite toRadians_opp, toRadians_0, toRadians_90.
  unfold Math.sin, Math.cos.
  rewrite sin_neg, cos_neg, sin_0, cos_0, sin_PI2, cos_PI2.
  replace (1 * 0 - 0 * 1 * 0) with 0 by lra. rewrite Rmult_1_r.
  unfold Math.atan2.
  assert (E : toDegrees (- (Math.PI / 2)) = -90).
  { unfold toDegrees, Math.PI. pose proof PI_RGT_0. field. lra. }
  repeat match goal with
  | |- context [Rlt_dec ?a ?b] => destruct (Rlt_dec a b); try lra
  end.
  rewrite E. rewrite js_lt_true by lra. lra.
Qed.

(** C3, amended. The azimuth is [atan2(y, x)] in degrees, plus 360
    exactly when that is negative; it is at least 0 and at most 360.  In
    exact arithmetic 360 itself is not reached; on doubles it is, when the
    sum of a small negative number and 360 rounds to 360. *)
Theorem calculateAzimuth_closed_range (lat1 lon1 lat2 lon2 : R) :
  let φ1 := toRadians lat1 in
  let φ2 := toRadians lat2 in
  let Δλ := toRadians (lon2 - lon1) in
  let y := Math.sin Δλ * Math.cos φ2 in
  let x := Math.cos φ1 * Math.sin φ2
           - Math.sin φ1 * Math.cos φ2 * Math.cos Δλ in
  let degrees := toDegrees (Math.atan2 y x) in
  let azimuth := calculateAzimuth lat1 lon1 lat2 lon2 in
  ((degrees < 0 /\ azimuth = degrees + 360)
   \/ (0 <= degrees /\ azimuth = degrees))
  /\ 0 <= azimuth <= 360.
Proof.
  intros φ1 φ2 Δλ y x degrees azimuth.
  pose proof (toDegrees_range _ (atan2_range y x)) as Hd.
  fold degrees in Hd.
  unfold azimuth, calculateAzimuth.
  fold φ1 φ2 Δλ y x degrees.
  destruct (Rlt_dec degrees 0) as [Hneg|Hpos].
  - rewrite js_lt_true by assumption. repeat split; lra.
  - rewrite js_lt_false by lra. repeat split; lra.
Qed.

(** ** Vincenty: reduced latitudes *)

(** The reduced latitude is a point of the unit circle. *)
Lemma reducedLatitude_unit (φ : R) :
  snd (reducedLatitude φ) ^ 2 + fst (reducedLatitude φ) ^ 2 = 1.
Proof.
  unfold reducedLatitude. cbn [fst snd].
  set (tanU := (1 - WGS84.f) * Math.tan φ).
  assert (Hpos : 0 < 1 + tanU * tanU) by nra.
  assert (Hs : 0 < Math.sqrt (1 + tanU * tanU)) by now apply sqrt_lt_R0.
  assert (Hsq : Math.sqrt (1 + tanU * tanU) * Math.sqrt (1 + tanU * tanU)
                = 1 + tanU * tanU) by (apply sqrt_sqrt; lra).
  set (r := Math.sqrt (1 + tanU * tanU)) in *.
  replace ((tanU * (1 / r)) ^ 2 + (1 / r) ^ 2)
    with ((1 + tanU * tanU) / (r * r)) by (field; lra).
  rewrite Hsq. field. lra.
Qed.

(** ** Vincenty: coincident points *)

Lemma sinσ_of_coincident (sinU cosU : R) : sinσ_of sinU cosU sinU cosU 0 = 0.
Proof.
  unfold sinσ_of, Math.sin, Math.cos, Math.sqrt.
  rewrite sin_0, cos_0.
  replace ((cosU * 0) ^ 2 + (cosU * sinU - sinU * cosU * 1) ^ 2) with 0 by ring.
  apply sqrt_0.
Qed.

(** C5. For two equal points the first pass finds [sinσ = 0] and the
    function returns 0 from inside the loop. *)
Theorem vincentyDistance_coincident (lat lon : R) :
  vincentyIterate lat lon lat lon = (Coincident, 1%nat)
  /\ vincentyDistance lat lon lat lon = 0.
Proof.
  assert (H : vincentyIterate lat lon lat lon = (Coincident, 1%nat)).
  { unfold vincentyIterate.
    replace (lon - lon) with 0 by lra. rewrite toRadians_0.
    destruct (reducedLatitude (toRadians lat)) as [cosU sinU].
    cbn [vincentyLoop].
    now rewrite sinσ_of_coincident, js_eq_refl. }
  split; [exact H|].
  unfold vincentyDistance. now rewrite H.
Qed.

(** ** Vincenty: the loop *)

Section LoopFacts.

Variables (L sinU1 cosU1 sinU2 cosU2 : R).

Let loop := vincentyLoop L sinU1 cosU1 sinU2 cosU2.
Let pass := vincentyPass L sinU1 cosU1 sinU2 cosU2.
Let sinσ0 := sinσ_of sinU1 cosU1 sinU2 cosU2.
Let after := λ_after L sinU1 cosU1 sinU2 cosU2.

Lemma λ_after_S (λ0 : R) (k : nat) :
  after (λ (pass λ0)) k = after λ0 (S k).
Proof.
  unfold after, λ_after, pass.
  now rewrite Nat.iter_succ_r.
Qed.

(** The loop makes [S k] passes, at most [max iterLimit 1]; the first
    [k] go on (no coincidence, no convergence), and the last one leaves
    by [return 0], by convergence or because the limit is used up. *)
Lemma vincentyLoop_spec (iterLimit : nat) :
  forall (λ0 : R) (passes : nat),
  exists k : nat,
    snd (loop iterLimit λ0 passes) = (passes + S k)%nat
    /\ (S k <= Nat.max iterLimit 1)%nat
    /\ (forall j, (j < k)%nat ->
          sinσ0 (after λ0 j) <> 0
          /\ Math.abs (after λ0 (S j) - after λ0 j) > 1e-12)
    /\ match fst (loop iterLimit λ0 passes) with
       | Coincident => sinσ0 (after λ0 k) = 0
       | Finished v =>
           sinσ0 (after λ0 k) <> 0
           /\ v = pass (after λ0 k)
           /\ (Math.abs (λ v - after λ0 k) <= 1e-12
               \/ S k = Nat.max iterLimit 1)
       end.
Proof.
  induction iterLimit as [|n IH]; intros λ0 passes;
    unfold loop; cbn [vincentyLoop]; fold sinσ0 pass loop.
  - exists 0%nat.
    destruct (js_eq (sinσ0 λ0) 0) eqn:E0.
    + apply js_eq_spec in E0. cbn [fst snd].
      split; [lia|]. split; [lia|]. split; [intros j Hj; lia|]. exact E0.
    + apply js_eq_false in E0.
      replace (if js_gt (Math.abs (λ (pass λ0) - λ0)) 1e-12
               then (Finished (pass λ0), S passes)
               else (Finished (pass λ0), S passes))
        with (Finished (pass λ0), S passes)
        by now destruct (js_gt (Math.abs (λ (pass λ0) - λ0)) 1e-12).
      cbn [fst snd].
      split; [lia|]. split; [lia|]. split; [intros j Hj; lia|].
      split; [exact E0|]. split; [reflexivity|]. now right.
  - destruct (js_eq (sinσ0 λ0) 0) eqn:E0.
    { exists 0%nat. apply js_eq_spec in E0. cbn [fst snd].
      split; [lia|]. split; [lia|]. split; [intros j Hj; lia|]. exact E0. }
    apply js_eq_false in E0.
    destruct (js_gt (Math.abs (λ (pass λ0) - λ0)) 1e-12) eqn:Eg.
    2:{ exists 0%nat. apply js_gt_false in Eg. cbn [fst snd].
        split; [lia|]. split; [lia|]. split; [intros j Hj; lia|].
        split; [exact E0|]. split; [reflexivity|]. now left. }
    apply js_gt_spec in Eg.
    destruct n as [|n'].
    { exists 0%nat. cbn [fst snd].
      split; [lia|]. split; [lia|]. split; [intros j Hj; lia|].
      split; [exact E0|]. split; [reflexivity|]. now right. }
    destruct (IH (λ (pass λ0)) (S passes)) as (k & Hn & Hk & Hgo & Hlast).
    exists (S k).
    split; [rewrite Hn; lia|]. split; [lia|]. split.
    + intros [|j] Hj; [split; assumption|].
      rewrite <- (λ_after_S λ0 (S j)), <- (λ_after_S λ0 j).
      apply Hgo. lia.
    + rewrite <- (λ_after_S λ0 k).
      destruct (fst (loop (S n') (λ (pass λ0)) (S passes)));
        [assumption|].
      destruct Hlast as (H1 & H2 & [H3|H3]).
      * split; [exact H1|]. split; [exact H2|]. now left.
      * split; [exact H1|]. split; [exact H2|]. right. lia.
Qed.

End LoopFacts.

(** C9. The loop of [vincentyDistance] makes at least one and at most 100
    passes.  Every pass but the last found neither coincident points nor
    convergence; the last pass either returns 0 (coincident points), or
    leaves the loop because the change of λ is at most 1e-12 or because it
    is the 100th pass.  In both of these the distance is the number
    computed from the variables of that last pass: the function is total
    and has no error result. *)
Theorem vincentyDistance_bounded_loop (lat1 lon1 lat2 lon2 : R) :
  let L := toRadians (lon2 - lon1) in
  let U1 := reducedLatitude (toRadians lat1) in
  let U2 := reducedLatitude (toRadians lat2) in
  let sinσ_at := sinσ_of (snd U1) (fst U1) (snd U2) (fst U2) in
  let pass := vincentyPass L (snd U1) (fst U1) (snd U2) (fst U2) in
  let λ_at := λ_after L (snd U1) (fst U1) (snd U2) (fst U2) L in
  let run := vincentyIterate lat1 lon1 lat2 lon2 in
  exists last : nat,
    snd run = S last
    /\ (1 <= S last <= 100)%nat
    /\ (forall j, (j < last)%nat ->
          sinσ_at (λ_at j) <> 0
          /\ Math.abs (λ_at (S j) - λ_at j) > 1e-12)
    /\ match fst run with
       | Coincident =>
           sinσ_at (λ_at last) = 0
           /\ vincentyDistance lat1 lon1 lat2 lon2 = 0
       | Finished v =>
           sinσ_at (λ_at last) <> 0
           /\ v = pass (λ_at last)
           /\ (Math.abs (λ v - λ_at last) <= 1e-12 \/ S last = 100%nat)
           /\ vincentyDistance lat1 lon1 lat2 lon2 = vincentyFinal v
       end.
Proof.
  intros L U1 U2 sinσ_at pass λ_at run.
  assert (Hrun : run = vincentyLoop L (snd U1) (fst U1) (snd U2) (fst U2)
                         100 L 0).
  { unfold run, vincentyIterate. fold L U1 U2.
    now destruct U1, U2. }
  destruct (vincentyLoop_spec L (snd U1) (fst U1) (snd U2) (fst U2) 100 L 0)
    as (k & Hn & Hk & Hgo & Hlast).
  rewrite <- Hrun in Hn, Hlast.
  exists k. split; [exact Hn|]. split; [cbn in Hk; lia|].
  split; [exact Hgo|].
  unfold vincentyDistance. fold run.
  destruct (fst run) as [|v].
  - split; [exact Hlast|reflexivity].
  - destruct Hlast as (H1 & H2 & H3).
    repeat split; assumption.
Qed.

(** ** Vincenty: symmetry *)

Section Symmetry.

Variables (L sinU1 cosU1 sinU2 cosU2 : R).
Hypothesis unit1 : sinU1 ^ 2 + cosU1 ^ 2 = 1.
Hypothesis unit2 : sinU2 ^ 2 + cosU2 ^ 2 = 1.

(** [sinσ] is the sine of the angle whose cosine is [cosσ]. *)
Lemma sinσ_of_sqr (λ0 : R) :
  (cosU2 * Math.sin λ0) ^ 2
  + (cosU1 * sinU2 - sinU1 * cosU2 * Math.cos λ0) ^ 2
  = 1 - (sinU1 * sinU2 + cosU1 * cosU2 * Math.cos λ0) ^ 2.
Proof.
  pose proof (sin2_cos2 λ0) as Hλ. unfold Rsqr in Hλ.
  unfold Math.sin, Math.cos.
  set (s := sin λ0) in *. set (c := cos λ0) in *.
  replace ((cosU2 * s) ^ 2 + (cosU1 * sinU2 - sinU1 * cosU2 * c) ^ 2)
    with (1 - (sinU1 * sinU2 + cosU1 * cosU2 * c) ^ 2
          + (sinU2 ^ 2 + cosU2 ^ 2 * c ^ 2) * (sinU1 ^ 2 + cosU1 ^ 2 - 1)
          + cosU2 ^ 2 * (s * s + c * c - 1)
          + (sinU2 ^ 2 + cosU2 ^ 2 - 1)) by ring.
  rewrite unit1, unit2, Hλ. ring.
Qed.

End Symmetry.

Section Swap.

Variables (L sinU1 cosU1 sinU2 cosU2 : R).
Hypothesis unit1 : sinU1 ^ 2 + cosU1 ^ 2 = 1.
Hypothesis unit2 : sinU2 ^ 2 + cosU2 ^ 2 = 1.

Lemma sinσ_of_swap (λ0 : R) :
  sinσ_of sinU2 cosU2 sinU1 cosU1 (- λ0)
  = sinσ_of sinU1 cosU1 sinU2 cosU2 λ0.
Proof.
  unfold sinσ_of. f_equal.
  rewrite (sinσ_of_sqr sinU2 cosU2 sinU1 cosU1 unit2 unit1 (- λ0)).
  rewrite (sinσ_of_sqr sinU1 cosU1 sinU2 cosU2 unit1 unit2 λ0).
  rewrite cos_opp. ring.
Qed.

Lemma vincentyPass_swap (λ0 : R) :
  vincentyPass (- L) sinU2 cosU2 sinU1 cosU1 (- λ0)
  = mirror (vincentyPass L sinU1 cosU1 sinU2 cosU2 λ0).
Proof.
  unfold vincentyPass, mirror.
  cbn [sinσ cosσ σ sinα cos2α cos2σm λ].
  rewrite sinσ_of_swap, cos_opp, sin_opp.
  set (s := Math.sin λ0). set (c := Math.cos λ0).
  set (ss := sinσ_of sinU1 cosU1 sinU2 cosU2 λ0).
  replace (sinU2 * sinU1 + cosU2 * cosU1 * c)
    with (sinU1 * sinU2 + cosU1 * cosU2 * c) by ring.
  replace (cosU2 * cosU1 * - s / ss)
    with (- (cosU1 * cosU2 * s / ss)) by (unfold Rdiv; ring).
  replace (1 - (- (cosU1 * cosU2 * s / ss)) ^ 2)
    with (1 - (cosU1 * cosU2 * s / ss) ^ 2) by ring.
  replace (2 * sinU2 * sinU1) with (2 * sinU1 * sinU2) by ring.
  f_equal. ring.
Qed.

Lemma vincentyLoop_swap (iterLimit : nat) :
  forall (λ0 : R) (passes : nat),
  vincentyLoop (- L) sinU2 cosU2 sinU1 cosU1 iterLimit (- λ0) passes
  = (mirrorExit
       (fst (vincentyLoop L sinU1 cosU1 sinU2 cosU2 iterLimit λ0 passes)),
     snd (vincentyLoop L sinU1 cosU1 sinU2 cosU2 iterLimit λ0 passes)).
Proof.
  induction iterLimit as [|n IH]; intros λ0 passes;
    cbn [vincentyLoop]; rewrite sinσ_of_swap, vincentyPass_swap;
    set (v := vincentyPass L sinU1 cosU1 sinU2 cosU2 λ0);
    replace (λ (mirror v) - - λ0) with (- (λ v - λ0))
      by (cbn [mirror λ]; ring);
    unfold Math.abs; rewrite Rabs_Ropp;
    destruct (js_eq (sinσ_of sinU1 cosU1 sinU2 cosU2 λ0) 0);
    try reflexivity;
    destruct (js_gt (Rabs (λ v - λ0)) 1e-12); try reflexivity.
  destruct n as [|n']; [reflexivity|].
  change (λ (mirror v)) with (- λ v). apply IH.
Qed.

End Swap.

Lemma vincentyFinal_mirror (v : VincentyVars) :
  vincentyFinal (mirror v) = vincentyFinal v.
Proof. reflexivity. Qed.

(** C1. Exchanging the two end points does not change the distance. *)
Theorem vincentyDistance_symmetric (lat1 lon1 lat2 lon2 : R) :
  vincentyDistance lat1 lon1 lat2 lon2 = vincentyDistance lat2 lon2 lat1 lon1.
Proof.
  unfold vincentyDistance, vincentyIterate.
  rewrite (toRadians_swap lon1 lon2).
  pose proof (reducedLatitude_unit (toRadians lat1)) as H1.
  pose proof (reducedLatitude_unit (toRadians lat2)) as H2.
  destruct (reducedLatitude (toRadians lat1)) as [cosU1 sinU1].
  destruct (reducedLatitude (toRadians lat2)) as [cosU2 sinU2].
  cbn [fst snd] in H1, H2.
  rewrite (vincentyLoop_swap _ sinU1 cosU1 sinU2 cosU2 H1 H2).
  cbn [fst].
  destruct (fst (vincentyLoop _ sinU1 cosU1 sinU2 cosU2 100 _ 0)) as [|v];
    cbn [mirrorExit]; [reflexivity|].
  now rewrite vincentyFinal_mirror.
Qed.

(** ** Geodesic area *)

Lemma edgeTerm_opp (p q : GeoPoint) : edgeTerm q p = - edgeTerm p q.
Proof. unfold edgeTerm. rewrite toRadians_swap. ring. Qed.

Lemma fold_left_Rplus (f : nat -> R) (l : list nat) (a0 : R) :
  fold_left (fun area i => area + f i) l a0
  = a0 + fold_right (fun i s => f i + s) 0 l.
Proof.
  revert a0. induction l as [|i l IH]; intros a0; cbn.
  - ring.
  - rewrite IH. ring.
Qed.

Lemma pathSum_cons (p q : GeoPoint) (rest : list GeoPoint) :
  pathSum (p :: q :: rest) = edgeTerm p q + pathSum (q :: rest).
Proof. reflexivity. Qed.

(** The terms of the loop for [i < n - 1] are those of the path. *)
Lemma pathSum_index (pts : list GeoPoint) :
  fold_right (fun i s => edgeTerm (pts_at pts i) (pts_at pts (S i)) + s) 0
    (seq 0 (List.length pts - 1))
  = pathSum pts.
Proof.
  induction pts as [|p pts IH]; [reflexivity|].
  destruct pts as [|q pts]; [reflexivity|].
  rewrite pathSum_cons, <- IH. clear IH.
  replace (List.length (p :: q :: pts) - 1)%nat
    with (S (List.length (q :: pts) - 1)) by (cbn; lia).
  cbn [seq fold_right]. f_equal.
  rewrite <- seq_shift.
  induction (seq 0 (List.length (q :: pts) - 1)) as [|i l IHl];
    [reflexivity|].
  cbn [map fold_right]. now rewrite IHl.
Qed.

(** The loop sums the path and the edge that closes it. *)
Lemma areaSum_path (pts : list GeoPoint) :
  pts <> [] ->
  areaSum pts
  = pathSum pts
    + edgeTerm (pts_at pts (List.length pts - 1)) (pts_at pts 0).
Proof.
  intros Hne. unfold areaSum.
  destruct (List.length pts) as [|m] eqn:Hlen.
  { destruct pts; [congruence|discriminate]. }
  rewrite fold_left_Rplus, Rplus_0_l, seq_S, fold_right_app.
  cbn [fold_right Nat.add]. rewrite <- pathSum_index, Hlen.
  cbn [Nat.sub]. rewrite Nat.sub_0_r.
  assert (Hlast : areaTerm pts (S m) m + 0
                  = edgeTerm (pts_at pts m) (pts_at pts 0)).
  { unfold areaTerm. replace (m + 1)%nat with (S m) by lia.
    rewrite Nat.Div0.mod_same. fold (edgeTerm (pts_at pts m) (pts_at pts 0)).
    ring. }
  rewrite Hlast.
  assert (Hgen : forall (l : list nat) (z : R),
            (forall i, In i l -> (i < m)%nat) ->
            fold_right (fun i s => areaTerm pts (S m) i + s) z l
            = fold_right
                (fun i s => edgeTerm (pts_at pts i) (pts_at pts (S i)) + s) 0 l
              + z).
  { induction l as [|i l IHl]; intros z Hl; cbn [fold_right]; [ring|].
    rewrite IHl by (intros j Hj; apply Hl; now right).
    unfold areaTerm at 1. replace (i + 1)%nat with (S i) by lia.
    rewrite Nat.mod_small by (specialize (Hl i (or_introl eq_refl)); lia).
    fold (edgeTerm (pts_at pts i) (pts_at pts (S i))). ring. }
  apply Hgen. intros i Hi. apply in_seq in Hi. lia.
Qed.

Lemma pathSum_snoc (pts : list GeoPoint) (a : GeoPoint) :
  pts <> [] ->
  pathSum (pts ++ [a])
  = pathSum pts + edgeTerm (pts_at pts (List.length pts - 1)) a.
Proof.
  induction pts as [|p pts IH]; [congruence|]. intros _.
  destruct pts as [|q pts].
  - cbn. ring.
  - change ((p :: q :: pts) ++ [a]) with (p :: q :: (pts ++ [a])).
    rewrite !pathSum_cons.
    change (q :: pts ++ [a]) with ((q :: pts) ++ [a]).
    rewrite IH by discriminate.
    replace (List.length (p :: q :: pts) - 1)%nat
      with (S (List.length (q :: pts) - 1)) by (cbn; lia).
    unfold pts_at. cbn [nth]. ring.
Qed.

Lemma pathSum_rev (pts : list GeoPoint) : pathSum (rev pts) = - pathSum pts.
Proof.
  induction pts as [|p pts IH]; [cbn; ring|].
  destruct pts as [|q pts]; [cbn; ring|].
  cbn [rev] in *.
  rewrite pathSum_snoc by (intros H; apply app_eq_nil in H; easy).
  rewrite IH. change (rev pts ++ [q]) with (rev (q :: pts)).
  unfold pts_at. rewrite rev_nth by (rewrite length_rev; cbn; lia).
  rewrite length_rev.
  replace (List.length (q :: pts) - S (List.length (q :: pts) - 1))%nat
    with 0%nat by (cbn; lia).
  cbn [nth]. rewrite pathSum_cons, (edgeTerm_opp p q). ring.
Qed.

(** Reversing the vertices negates the sum of the loop. *)
Lemma areaSum_rev (pts : list GeoPoint) : areaSum (rev pts) = - areaSum pts.
Proof.
  destruct pts as [|p pts]; [cbn; ring|].
  rewrite !areaSum_path by (try discriminate;
    cbn [rev]; intros H; apply app_eq_nil in H; easy).
  rewrite pathSum_rev, length_rev.
  set (l := p :: pts).
  assert (Hn : (0 < List.length l)%nat) by (cbn; lia).
  unfold pts_at.
  rewrite !rev_nth by lia.
  replace (List.length l - S (List.length l - 1))%nat with 0%nat by lia.
  fold (pts_at l 0) (pts_at l (List.length l - 1)).
  rewrite (edgeTerm_opp (pts_at l (List.length l - 1)) (pts_at l 0)). ring.
Qed.

(** C7, amended. For at least 3 vertices the area is not negative, in
    either order of the vertices.  In exact arithmetic the vertices taken
    in the opposite order give the same area: the sum over the edges
    changes sign and the absolute value removes the sign.  (On doubles
    the two sums are rounded in different orders and the areas can
    differ.) *)
Theorem calculateGeodesicArea_winding (pts : list GeoPoint) :
  (3 <= List.length pts)%nat ->
  0 <= calculateGeodesicArea pts
  /\ 0 <= calculateGeodesicArea (rev pts)
  /\ areaSum (rev pts) = - areaSum pts
  /\ calculateGeodesicArea (rev pts) = calculateGeodesicArea pts.
Proof.
  intros Hlen. unfold calculateGeodesicArea.
  rewrite length_rev.
  destruct (Nat.ltb_spec (List.length pts) 3) as [Hlt|_]; [lia|].
  split; [apply Rabs_pos|]. split; [apply Rabs_pos|].
  split; [apply areaSum_rev|].
  rewrite areaSum_rev. unfold Math.abs.
  replace (- areaSum pts * WGS84.a * WGS84.a / 2)
    with (- (areaSum pts * WGS84.a * WGS84.a / 2)) by (unfold Rdiv; ring).
  apply Rabs_Ropp.
Qed.

Lemma calculateGeodesicArea_winding_witness :
  let pts := [mkPoint 0 0; mkPoint 0 10; mkPoint 10 10; mkPoint 10 0] in
  (3 <= List.length pts)%nat
  /\ 0 <= calculateGeodesicArea pts
  /\ 0 <= calculateGeodesicArea (rev pts)
  /\ areaSum (rev pts) = - areaSum pts
  /\ calculateGeodesicArea (rev pts) = calculateGeodesicArea pts.
Proof.
  intros pts.
  assert (Hlen : (3 <= List.length pts)%nat) by (cbn; lia).
  split; [exact Hlen|].
  exact (calculateGeodesicArea_winding pts Hlen).
Defined.

(** ** On doubles *)

Module Binary64Facts.

Import PrimFloat Binary64.
#[local] Open Scope float_scope.

(** C3, on doubles. From (10, 90) to (20, -90) the longitudes differ by
    -180 degrees; the sine of [-PI] is a small negative number, so is the
    angle in degrees, about -1.3e-14, and its sum with 360 rounds to 360:
    [calculateAzimuth] returns 360, which is not less than 360. *)
Lemma calculateAzimuth_returns_360 :
  calculateAzimuth libm 10 90 20 (-90) = 360
  /\ (calculateAzimuth libm 10 90 20 (-90) <? 360) = false.
Proof. vm_compute. split; reflexivity. Qed.

(** C7, on doubles. For four points of the equator, at the longitudes
    -26, 0, 3 and -1, the area is about 0.00226 in this order and 0 in the
    opposite order. *)
Lemma calculateGeodesicArea_reversed_differs :
  let pts := [mkPoint 0 (-26); mkPoint 0 0; mkPoint 0 3; mkPoint 0 (-1)] in
  (3 <= List.length pts)%nat
  /\ calculateGeodesicArea libm pts = 0x1.27fd94c2fb880p-9
  /\ calculateGeodesicArea libm (rev pts) = 0
  /\ (calculateGeodesicArea libm (rev pts) =? calculateGeodesicArea libm pts)
     = false.
Proof.
  intros pts. split; [cbn; lia|].
  repeat split; vm_compute; reflexivity.
Qed.

End Binary64Facts.

(* ================================================================== *)
(** * Further properties *)

(** ** Sexagesimal degrees *)

Lemma decimalToDMS_core_bounds (decimal : R) :
  let '(deg, min, sec) := decimalToDMS_core decimal in
  (0 <= deg)%Z /\ (0 <= min <= 59)%Z /\ 0 <= sec < 60
  /\ IZR deg + IZR min / 60 + sec / 3600 = Rabs decimal.
Proof.
  unfold decimalToDMS_core, Math.floor, Math.abs.
  set (a := Rabs decimal).
  assert (Ha : 0 <= a) by apply Rabs_pos.
  pose proof (Zfloor_bound a) as [Hd1 Hd2].
  set (d := Zfloor a) in *.
  pose proof (Zfloor_bound ((a - IZR d) * 60)) as [Hm1 Hm2].
  set (m := Zfloor ((a - IZR d) * 60)) in *.
  assert (Hd : (0 <= d)%Z) by (apply Zfloor_lub; lra).
  assert (Hm : (0 <= m)%Z) by (apply Zfloor_lub; lra).
  assert (Hm' : (m < 60)%Z) by (apply lt_IZR; lra).
  repeat split; try lia; try lra.
Qed.

(** X1. The degrees and minutes of [decimalToDMS] are whole numbers,
    degrees at least 0 and minutes from 0 to 59; the seconds before they
    are printed lie in [0, 60); and degrees + minutes/60 + seconds/3600 is
    the absolute value of the argument. *)
Theorem decimalToDMS_components (decimal : R) :
  exists sec : R,
    DMS.sec (decimalToDMS decimal) = toFixed2 sec
    /\ (0 <= DMS.deg (decimalToDMS decimal))%Z
    /\ (0 <= DMS.min (decimalToDMS decimal) <= 59)%Z
    /\ 0 <= sec < 60
    /\ IZR (DMS.deg (decimalToDMS decimal))
       + IZR (DMS.min (decimalToDMS decimal)) / 60 + sec / 3600
       = Rabs decimal.
Proof.
  pose proof (decimalToDMS_core_bounds decimal) as H.
  unfold decimalToDMS.
  destruct (decimalToDMS_core decimal) as [[d m] s].
  exists s. cbn [DMS.deg DMS.min DMS.sec]. tauto.
Qed.

(** X2. [decimalToDMS] does not see the sign of its argument. *)
Theorem decimalToDMS_sign_lost (decimal : R) :
  decimalToDMS (- decimal) = decimalToDMS decimal.
Proof.
  unfold decimalToDMS, decimalToDMS_core, Math.abs.
  now rewrite Rabs_Ropp.
Qed.

Lemma dmsToDecimal_north (deg min sec : option R) (direction : string) :
  direction <> "S"%string -> direction <> "W"%string ->
  dmsToDecimal deg min sec direction
  = Rabs (orZero deg) + orZero min / 60 + orZero sec / 3600.
Proof.
  intros HS HW. unfold dmsToDecimal.
  destruct (String.eqb_spec direction "S"); [contradiction|].
  destruct (String.eqb_spec direction "W"); [contradiction|].
  reflexivity.
Qed.

Lemma dmsToDecimal_south (deg min sec : option R) (direction : string) :
  direction = "S"%string \/ direction = "W"%string ->
  dmsToDecimal deg min sec direction
  = - (Rabs (orZero deg) + orZero min / 60 + orZero sec / 3600).
Proof.
  intros [-> | ->]; reflexivity.
Qed.

(** X3. [dmsToDecimal] applied to the degrees, the minutes and the
    seconds (not yet printed) of [decimalToDMS] gives the number back when
    the direction agrees with its sign: N or E for a number that is not
    negative, S or W for one that is not positive. *)
Theorem dmsToDecimal_decimalToDMS (decimal : R) (direction : string) :
  (0 <= decimal /\ (direction = "N" \/ direction = "E"))%string
  \/ (decimal <= 0 /\ (direction = "S" \/ direction = "W"))%string ->
  let '(deg, min, sec) := decimalToDMS_core decimal in
  dmsToDecimal (Some (IZR deg)) (Some (IZR min)) (Some sec) direction
  = decimal.
Proof.
  intros Hdir.
  pose proof (decimalToDMS_core_bounds decimal) as H.
  destruct (decimalToDMS_core decimal) as [[d m] s].
  destruct H as (Hd & _ & _ & Hsum).
  assert (Habs : Rabs (IZR d) = IZR d).
  { apply Rabs_pos_eq. now apply IZR_le. }
  destruct Hdir as [[Hpos Hd'] | [Hneg Hd']].
  - rewrite dmsToDecimal_north
      by (destruct Hd' as [-> | ->]; discriminate).
    cbn [orZero]. rewrite Habs, Hsum. now apply Rabs_pos_eq.
  - rewrite dmsToDecimal_south by exact Hd'.
    cbn [orZero]. rewrite Habs, Hsum.
    rewrite <- (Rabs_Ropp decimal), Rabs_pos_eq by lra. lra.
Qed.

Lemma dmsToDecimal_decimalToDMS_witness :
  let '(deg, min, sec) := decimalToDMS_core (-41.5) in
  dmsToDecimal (Some (IZR deg)) (Some (IZR min)) (Some sec) "S" = -41.5.
Proof.
  apply (dmsToDecimal_decimalToDMS (-41.5) "S").
  right. split; [lra|]. now left.
Defined.

(** X4. In [dmsToDecimal] each field that is not a number counts as 0,
    whatever the other fields are, and the sign of the degrees is dropped.
    The directions S and W give the opposite of what N gives, and every
    other direction gives what N gives.  With minutes and seconds that are
    not negative, the result is at most 0 for S and W and at least 0 for
    every other direction. *)
Theorem dmsToDecimal_sign (deg min sec : option R) (direction : string) :
  (dmsToDecimal None min sec direction
   = dmsToDecimal (Some 0) min sec direction
   /\ dmsToDecimal deg None sec direction
      = dmsToDecimal deg (Some 0) sec direction
   /\ dmsToDecimal deg min None direction
      = dmsToDecimal deg min (Some 0) direction)
  /\ dmsToDecimal (option_map Ropp deg) min sec direction
     = dmsToDecimal deg min sec direction
  /\ (direction = "S"%string \/ direction = "W"%string ->
      dmsToDecimal deg min sec direction = - dmsToDecimal deg min sec "N")
  /\ (direction <> "S"%string -> direction <> "W"%string ->
      dmsToDecimal deg min sec direction = dmsToDecimal deg min sec "N")
  /\ (0 <= orZero min -> 0 <= orZero sec ->
      (direction = "S"%string \/ direction = "W"%string ->
         dmsToDecimal deg min sec direction <= 0)
      /\ (direction <> "S"%string -> direction <> "W"%string ->
         0 <= dmsToDecimal deg min sec direction)).
Proof.
  pose proof (Rabs_pos (orZero deg)) as Hd.
  assert (HN : dmsToDecimal deg min sec "N"
               = Rabs (orZero deg) + orZero min / 60 + orZero sec / 3600)
    by reflexivity.
  split; [repeat split|]. split; [|split; [|split; [|intros Hm Hs; split]]].
  - unfold dmsToDecimal, Math.abs.
    replace (Rabs (orZero (option_map Ropp deg))) with (Rabs (orZero deg));
      [reflexivity|].
    destruct deg as [r|]; cbn; [now rewrite Rabs_Ropp|reflexivity].
  - intros Hdir. now rewrite dmsToDecimal_south, HN by exact Hdir.
  - intros HS HW. now rewrite dmsToDecimal_north, HN by assumption.
  - intros Hdir. rewrite dmsToDecimal_south by exact Hdir. lra.
  - intros HS HW. rewrite dmsToDecimal_north by assumption. lra.
Qed.

Lemma dmsToDecimal_sign_witness :
  dmsToDecimal (Some (-41)) (Some 24) None "W" <= 0.
Proof.
  apply (dmsToDecimal_sign (Some (-41)) (Some 24) None "W");
    cbn [orZero]; try lra.
  now right.
Defined.

(** ** Sums around a polygon *)

Section CircularSum.

Variable g : GeoPoint -> GeoPoint -> R.

Lemma pathSumOf_cons (p q : GeoPoint) (rest : list GeoPoint) :
  pathSumOf g (p :: q :: rest) = g p q + pathSumOf g (q :: rest).
Proof. reflexivity. Qed.

Lemma pathSumOf_index (pts : list GeoPoint) :
  fold_right (fun i s => g (pts_at pts i) (pts_at pts (S i)) + s) 0
    (seq 0 (List.length pts - 1))
  = pathSumOf g pts.
Proof.
  induction pts as [|p pts IH]; [reflexivity|].
  destruct pts as [|q pts]; [reflexivity|].
  rewrite pathSumOf_cons, <- IH. clear IH.
  replace (List.length (p :: q :: pts) - 1)%nat
    with (S (List.length (q :: pts) - 1)) by (cbn; lia).
  cbn [seq fold_right]. f_equal.
  rewrite <- seq_shift.
  induction (seq 0 (List.length (q :: pts) - 1)) as [|i l IHl];
    [reflexivity|].
  cbn [map fold_right]. now rewrite IHl.
Qed.

Lemma circSum_path (pts : list GeoPoint) :
  pts <> [] ->
  circSum g pts
  = pathSumOf g pts + g (pts_at pts (List.length pts - 1)) (pts_at pts 0).
Proof.
  intros Hne. unfold circSum.
  destruct (List.length pts) as [|m] eqn:Hlen.
  { destruct pts; [congruence|discriminate]. }
  rewrite fold_left_Rplus, Rplus_0_l, seq_S, fold_right_app.
  cbn [fold_right Nat.add]. rewrite <- pathSumOf_index, Hlen.
  cbn [Nat.sub]. rewrite Nat.sub_0_r.
  replace (m + 1)%nat with (S m) by lia.
  rewrite Nat.Div0.mod_same, Rplus_0_r.
  generalize (g (pts_at pts m) (pts_at pts 0)). intros z.
  assert (Hin : forall i, In i (seq 0 m) -> (i < m)%nat)
    by (intros i Hi; apply in_seq in Hi; lia).
  induction (seq 0 m) as [|i l IHl]; cbn [fold_right]; [ring|].
  rewrite IHl by (intros j Hj; apply Hin; now right).
  replace (i + 1)%nat with (S i) by lia.
  rewrite Nat.mod_small by (specialize (Hin i (or_introl eq_refl)); lia).
  ring.
Qed.

Lemma pathSumOf_snoc (pts : list GeoPoint) (a : GeoPoint) :
  pts <> [] ->
  pathSumOf g (pts ++ [a])
  = pathSumOf g pts + g (pts_at pts (List.length pts - 1)) a.
Proof.
  induction pts as [|p pts IH]; [congruence|]. intros _.
  destruct pts as [|q pts].
  - cbn. ring.
  - change ((p :: q :: pts) ++ [a]) with (p :: q :: (pts ++ [a])).
    rewrite !pathSumOf_cons.
    change (q :: pts ++ [a]) with ((q :: pts) ++ [a]).
    rewrite IH by discriminate.
    replace (List.length (p :: q :: pts) - 1)%nat
      with (S (List.length (q :: pts) - 1)) by (cbn; lia).
    unfold pts_at. cbn [nth]. ring.
Qed.

(** The sum does not depend on the vertex the polygon starts at. *)
Lemma circSum_rotate (p : GeoPoint) (pts : list GeoPoint) :
  circSum g (pts ++ [p]) = circSum g (p :: pts).
Proof.
  destruct pts as [|q pts]; [reflexivity|].
  rewrite !circSum_path by (try discriminate;
    intros H; apply app_eq_nil in H; easy).
  rewrite pathSumOf_snoc, pathSumOf_cons by discriminate.
  rewrite length_app. cbn [List.length].
  replace (S (List.length pts) + 1 - 1)%nat with (S (List.length pts)) by lia.
  replace (S (S (List.length pts)) - 1)%nat with (S (List.length pts)) by lia.
  replace (S (List.length pts) - 1)%nat with (List.length pts) by lia.
  unfold pts_at.
  rewrite (app_nth2 (q :: pts) [p]) by (cbn; lia).
  replace (S (List.length pts) - List.length (q :: pts))%nat with 0%nat
    by (cbn; lia).
  cbn [nth app]. ring.
Qed.

End CircularSum.

Lemma pathSumOf_rev (g : GeoPoint -> GeoPoint -> R) (pts : list GeoPoint) :
  pathSumOf g (rev pts) = pathSumOf (fun p q => g q p) pts.
Proof.
  induction pts as [|p pts IH]; [reflexivity|].
  destruct pts as [|q pts]; [reflexivity|].
  rewrite pathSumOf_cons, <- IH.
  change (rev (p :: q :: pts)) with (rev (q :: pts) ++ [p]).
  rewrite pathSumOf_snoc
    by (cbn [rev]; intros H; apply app_eq_nil in H; easy).
  unfold pts_at. rewrite rev_nth by (rewrite length_rev; cbn; lia).
  rewrite length_rev.
  replace (List.length (q :: pts) - S (List.length (q :: pts) - 1))%nat
    with 0%nat by (cbn; lia).
  cbn [nth]. ring.
Qed.

(** Going round the other way sums the edges taken backwards. *)
Lemma circSum_rev (g : GeoPoint -> GeoPoint -> R) (pts : list GeoPoint) :
  circSum g (rev pts) = circSum (fun p q => g q p) pts.
Proof.
  destruct pts as [|p pts]; [reflexivity|].
  rewrite !circSum_path by (try discriminate;
    cbn [rev]; intros H; apply app_eq_nil in H; easy).
  rewrite pathSumOf_rev, length_rev.
  set (l := p :: pts).
  assert (Hn : (0 < List.length l)%nat) by (cbn; lia).
  unfold pts_at. rewrite !rev_nth by lia.
  replace (List.length l - S (List.length l - 1))%nat with 0%nat by lia.
  reflexivity.
Qed.

Lemma circSum_ext (g h : GeoPoint -> GeoPoint -> R) (pts : list GeoPoint) :
  (forall p q, g p q = h p q) -> circSum g pts = circSum h pts.
Proof.
  intros Hgh. unfold circSum.
  set (n := List.length pts).
  assert (H : forall (l : list nat) (z : R),
            fold_left (fun acc i =>
                         acc + g (pts_at pts i) (pts_at pts ((i + 1) mod n)))
              l z
            = fold_left (fun acc i =>
                           acc + h (pts_at pts i) (pts_at pts ((i + 1) mod n)))
                l z).
  { induction l as [|i l IHl]; intros z; cbn [fold_left]; [reflexivity|].
    now rewrite Hgh, IHl. }
  apply H.
Qed.

(** ** Perimeter *)

Lemma vincentyDistance_ends (lat1 lon1 lat2 lon2 : R) :
  vincentyDistance lat2 lon2 lat1 lon1 = vincentyDistance lat1 lon1 lat2 lon2.
Proof.
  unfold vincentyDistance, vincentyIterate.
  rewrite (toRadians_swap lon1 lon2).
  pose proof (reducedLatitude_unit (toRadians lat1)) as H1.
  pose proof (reducedLatitude_unit (toRadians lat2)) as H2.
  destruct (reducedLatitude (toRadians lat1)) as [cosU1 sinU1].
  destruct (reducedLatitude (toRadians lat2)) as [cosU2 sinU2].
  cbn [fst snd] in H1, H2.
  rewrite (vincentyLoop_swap _ sinU1 cosU1 sinU2 cosU2 H1 H2).
  cbn [fst].
  now destruct (fst (vincentyLoop _ sinU1 cosU1 sinU2 cosU2 100 _ 0)).
Qed.

Lemma geodesicEdge_sym (p q : GeoPoint) : geodesicEdge q p = geodesicEdge p q.
Proof. apply vincentyDistance_ends. Qed.

Lemma calculatePerimeter_circSum (pts : list GeoPoint) :
  calculatePerimeter pts
  = if (List.length pts <? 2)%nat then 0 else circSum geodesicEdge pts.
Proof. reflexivity. Qed.

Lemma areaSum_circSum (pts : list GeoPoint) :
  areaSum pts = circSum edgeTerm pts.
Proof. reflexivity. Qed.

(** X5. The perimeter is the same when the vertices are taken in the
    opposite order. *)
Theorem calculatePerimeter_rev (pts : list GeoPoint) :
  calculatePerimeter (rev pts) = calculatePerimeter pts.
Proof.
  rewrite !calculatePerimeter_circSum, length_rev.
  destruct (List.length pts <? 2)%nat; [reflexivity|].
  rewrite circSum_rev. apply circSum_ext. intros p q. apply geodesicEdge_sym.
Qed.

(** X6. In exact arithmetic neither the perimeter nor the area depends on
    the vertex the polygon starts at: moving the first vertex to the end
    changes nothing.  (On doubles the sums are rounded in the order of the
    list, and the results can differ by rounding.) *)
Theorem polygon_start_vertex (p : GeoPoint) (pts : list GeoPoint) :
  calculatePerimeter (pts ++ [p]) = calculatePerimeter (p :: pts)
  /\ calculateGeodesicArea (pts ++ [p]) = calculateGeodesicArea (p :: pts).
Proof.
  split.
  - rewrite !calculatePerimeter_circSum, circSum_rotate.
    rewrite length_app. cbn [List.length].
    now replace (List.length pts + 1)%nat with (S (List.length pts)) by lia.
  - unfold calculateGeodesicArea.
    rewrite !areaSum_circSum, circSum_rotate.
    rewrite length_app. cbn [List.length].
    now replace (List.length pts + 1)%nat with (S (List.length pts)) by lia.
Qed.

(** X7. With fewer than two points the perimeter is 0; with exactly two
    it is twice their distance, the segment being walked there and back. *)
Theorem calculatePerimeter_short (p q : GeoPoint) :
  calculatePerimeter [] = 0
  /\ calculatePerimeter [p] = 0
  /\ calculatePerimeter [p; q]
     = 2 * vincentyDistance (lat p) (lon p) (lat q) (lon q).
Proof.
  repeat split.
  rewrite calculatePerimeter_circSum. cbn [List.length Nat.ltb Nat.leb].
  rewrite circSum_path by discriminate.
  cbn [pathSumOf List.length Nat.sub pts_at nth].
  rewrite (geodesicEdge_sym p q). unfold geodesicEdge. ring.
Qed.

(** ** Centroid *)

Lemma centroidSums_from (pts : list GeoPoint) (a b : R) :
  fold_left (fun '(sumLat, sumLon) p => (sumLat + lat p, sumLon + lon p))
    pts (a, b)
  = (a + fst (centroidSums pts), b + snd (centroidSums pts)).
Proof.
  unfold centroidSums. revert a b.
  induction pts as [|p pts IH]; intros a b; cbn [fold_left fst snd].
  - f_equal; ring.
  - rewrite IH, (IH (0 + lat p) (0 + lon p)). cbn [fst snd]. f_equal; ring.
Qed.

Lemma centroidSums_cons (p : GeoPoint) (pts : list GeoPoint) :
  centroidSums (p :: pts)
  = (lat p + fst (centroidSums pts), lon p + snd (centroidSums pts)).
Proof.
  unfold centroidSums at 1. cbn [fold_left].
  rewrite centroidSums_from. f_equal; ring.
Qed.

Lemma centroidSums_perm (pts pts' : list GeoPoint) :
  Permutation pts pts' -> centroidSums pts = centroidSums pts'.
Proof.
  induction 1 as [|p l l' _ IH|p q l|l l' l'' _ IH1 _ IH2].
  - reflexivity.
  - now rewrite !centroidSums_cons, IH.
  - rewrite !centroidSums_cons. cbn [fst snd]. f_equal; ring.
  - now rewrite IH1.
Qed.

Lemma centroidSums_bounds (pts : list GeoPoint) (lo hi lo' hi' : R) :
  Forall (fun p => lo <= lat p <= hi /\ lo' <= lon p <= hi') pts ->
  INR (List.length pts) * lo <= fst (centroidSums pts)
                             <= INR (List.length pts) * hi
  /\ INR (List.length pts) * lo' <= snd (centroidSums pts)
                                 <= INR (List.length pts) * hi'.
Proof.
  induction 1 as [|p pts [Hlat Hlon] _ IH].
  - cbn. lra.
  - rewrite centroidSums_cons. cbn [fst snd].
    change (List.length (p :: pts)) with (S (List.length pts)).
    rewrite S_INR. lra.
Qed.

(** In exact arithmetic the centroid of points that all lie in a box of
    latitudes and longitudes lies in that box. *)
Lemma calculateCentroid_box (pts : list GeoPoint)
    (lo hi lo' hi' : R) :
  pts <> [] ->
  Forall (fun p => lo <= lat p <= hi /\ lo' <= lon p <= hi') pts ->
  lo <= lat (calculateCentroid pts) <= hi
  /\ lo' <= lon (calculateCentroid pts) <= hi'.
Proof.
  intros Hne Hbox.
  pose proof (centroidSums_bounds pts lo hi lo' hi' Hbox) as [Hlat Hlon].
  unfold calculateCentroid.
  destruct pts as [|p pts]; [congruence|].
  set (l := p :: pts) in *.
  assert (Hn : 0 < INR (List.length l)) by (apply lt_0_INR; cbn; lia).
  replace (List.length l =? 0)%nat with false by reflexivity.
  destruct (centroidSums l) as [sumLat sumLon]. cbn [fst snd lat lon] in *.
  set (n := INR (List.length l)) in *.
  repeat split.
  - apply Rmult_le_reg_r with n; [exact Hn|].
    unfold Rdiv. rewrite Rmult_assoc, Rinv_l by lra. lra.
  - apply Rmult_le_reg_r with n; [exact Hn|].
    unfold Rdiv. rewrite Rmult_assoc, Rinv_l by lra. lra.
  - apply Rmult_le_reg_r with n; [exact Hn|].
    unfold Rdiv. rewrite Rmult_assoc, Rinv_l by lra. lra.
  - apply Rmult_le_reg_r with n; [exact Hn|].
    unfold Rdiv. rewrite Rmult_assoc, Rinv_l by lra. lra.
Qed.

(** X8. The centroid of valid positions is a valid position: for at
    least one point, all with latitudes from -90 to 90 and longitudes from
    -180 to 180, the latitude of the centroid is between -90 and 90 and
    its longitude between -180 and 180. *)
Theorem calculateCentroid_in_box (pts : list GeoPoint) :
  pts <> [] ->
  Forall (fun p => -90 <= lat p <= 90 /\ -180 <= lon p <= 180) pts ->
  -90 <= lat (calculateCentroid pts) <= 90
  /\ -180 <= lon (calculateCentroid pts) <= 180.
Proof. apply calculateCentroid_box. Qed.

Lemma calculateCentroid_in_box_witness :
  let pts := [mkPoint 10 20; mkPoint 30 (-40); mkPoint (-50) 60] in
  -90 <= lat (calculateCentroid pts) <= 90
  /\ -180 <= lon (calculateCentroid pts) <= 180.
Proof.
  intros pts.
  apply (calculateCentroid_in_box pts).
  - discriminate.
  - repeat constructor; cbn [lat lon]; lra.
Defined.

(** X9. In exact arithmetic the centroid does not depend on the order of
    the points (on doubles the sums are rounded in the order of the list);
    without points it is the origin. *)
Theorem calculateCentroid_perm (pts pts' : list GeoPoint) :
  Permutation pts pts' ->
  calculateCentroid pts = calculateCentroid pts'
  /\ calculateCentroid [] = mkPoint 0 0.
Proof.
  intros Hperm. split; [|reflexivity].
  unfold calculateCentroid.
  now rewrite (Permutation_length Hperm), (centroidSums_perm _ _ Hperm).
Qed.

Lemma calculateCentroid_perm_witness :
  calculateCentroid [mkPoint 1 2; mkPoint 3 4; mkPoint 5 6]
  = calculateCentroid [mkPoint 5 6; mkPoint 3 4; mkPoint 1 2].
Proof.
  apply (calculateCentroid_perm [mkPoint 1 2; mkPoint 3 4; mkPoint 5 6]
           (rev [mkPoint 1 2; mkPoint 3 4; mkPoint 5 6])).
  apply Permutation_rev.
Defined.

(** ** Radii of curvature *)

Lemma pow_1_5 (w : R) : 0 < w -> Math.pow w 1.5 = w * Math.sqrt w.
Proof.
  intros Hw. unfold Math.pow, Math.sqrt.
  replace 1.5 with (1 + / 2) by lra.
  now rewrite Rpower_plus, Rpower_1, Rpower_sqrt.
Qed.

Lemma curvature_denominator (lat : R) :
  let sinLat := Math.sin (toRadians lat) in
  1 - WGS84.e2 <= 1 - WGS84.e2 * sinLat * sinLat <= 1.
Proof.
  intros sinLat.
  assert (Hs : -1 <= sinLat <= 1) by apply SIN_bound.
  assert (Hq : 0 <= sinLat * sinLat <= 1) by nra.
  assert (He : 0 < WGS84.e2 < 1) by (unfold WGS84.e2; lra).
  rewrite Rmult_assoc. set (q := sinLat * sinLat) in *.
  set (e2 := WGS84.e2) in *. nra.
Qed.

(** X10. At every latitude the two radii of curvature are positive, the
    meridian radius is at most the radius in the prime vertical, the
    meridian radius is at least a(1 - e2), its value at the equator, and
    the radius in the prime vertical is at least a, its value at the
    equator. *)
Theorem radii_of_curvature (lat : R) :
  0 < radiusMeridian lat <= radiusPrimeVertical lat
  /\ WGS84.a * (1 - WGS84.e2) <= radiusMeridian lat
  /\ WGS84.a <= radiusPrimeVertical lat
  /\ radiusMeridian 0 = WGS84.a * (1 - WGS84.e2)
  /\ radiusPrimeVertical 0 = WGS84.a.
Proof.
  pose proof (curvature_denominator lat) as Hw.
  unfold radiusMeridian, radiusPrimeVertical.
  cbv zeta in Hw |- *.
  set (w := 1 - WGS84.e2 * Math.sin (toRadians lat)
                * Math.sin (toRadians lat)) in *.
  assert (He : 0 < 1 - WGS84.e2) by (unfold WGS84.e2; lra).
  assert (Hwpos : 0 < w) by lra.
  assert (Ha : 0 < WGS84.a) by (unfold WGS84.a; lra).
  rewrite pow_1_5 by exact Hwpos.
  assert (Hr : 0 < Math.sqrt w) by now apply sqrt_lt_R0.
  assert (Hr1 : Math.sqrt w <= 1).
  { rewrite <- sqrt_1. apply sqrt_le_1_alt. lra. }
  set (r := Math.sqrt w) in *.
  assert (Hiw : / w >= 1).
  { rewrite <- Rinv_1. apply Rle_ge, Rinv_le_contravar; lra. }
  assert (Hir : / r >= 1).
  { rewrite <- Rinv_1. apply Rle_ge, Rinv_le_contravar; lra. }
  assert (Hiw' : (1 - WGS84.e2) * / w <= 1).
  { apply Rmult_le_reg_r with w; [exact Hwpos|].
    rewrite Rmult_assoc, Rinv_l by lra. lra. }
  assert (EM : WGS84.a * (1 - WGS84.e2) / (w * r)
               = WGS84.a * / r * ((1 - WGS84.e2) * / w)) by (field; lra).
  assert (Hair : 0 < WGS84.a * / r).
  { apply Rmult_lt_0_compat; [exact Ha|]. now apply Rinv_0_lt_compat. }
  assert (Hiw0 : 0 < (1 - WGS84.e2) * / w).
  { apply Rmult_lt_0_compat; [exact He|]. now apply Rinv_0_lt_compat. }
  split; [|split; [|split; [|split]]].
  - rewrite EM. unfold Rdiv.
    set (A := WGS84.a * / r) in *.
    set (B := (1 - WGS84.e2) * / w) in *. split; nra.
  - replace (WGS84.a * (1 - WGS84.e2) / (w * r))
      with (WGS84.a * (1 - WGS84.e2) * (/ w * / r)) by (field; lra).
    assert (HP : 1 <= / w * / r) by nra.
    assert (HK : 0 < WGS84.a * (1 - WGS84.e2))
      by now apply Rmult_lt_0_compat.
    set (K := WGS84.a * (1 - WGS84.e2)) in *.
    set (P := / w * / r) in *. nra.
  - unfold Rdiv. set (a := WGS84.a) in *. nra.
  - rewrite toRadians_0. unfold Math.sin. rewrite sin_0.
    replace (1 - WGS84.e2 * 0 * 0) with 1 by ring.
    rewrite pow_1_5 by lra. unfold Math.sqrt. rewrite sqrt_1. field.
  - rewrite toRadians_0. unfold Math.sin. rewrite sin_0.
    replace (1 - WGS84.e2 * 0 * 0) with 1 by ring.
    unfold Math.sqrt. rewrite sqrt_1. field.
Qed.

(** ** Projections and their inverse *)

Lemma clamp_cases (lo hi v : R) :
  lo <= hi ->
  (v <= lo /\ Math.max lo (Math.min hi v) = lo)
  \/ (lo <= v <= hi /\ Math.max lo (Math.min hi v) = v)
  \/ (hi <= v /\ Math.max lo (Math.min hi v) = hi).
Proof.
  intros Hlh. unfold Math.max, Math.min, Rmax, Rmin.
  destruct (Rle_dec hi v); destruct (Rle_dec lo hi);
    destruct (Rle_dec lo v); lra.
Qed.

Lemma clamp_id (lo hi v : R) :
  lo <= v <= hi -> Math.max lo (Math.min hi v) = v.
Proof.
  intros Hv. unfold Math.max, Math.min, Rmax, Rmin.
  destruct (Rle_dec hi v); destruct (Rle_dec lo hi);
    destruct (Rle_dec lo v); lra.
Qed.

Lemma toDegrees_toRadians (deg : R) : toDegrees (toRadians deg) = deg.
Proof.
  unfold toDegrees, toRadians, Math.PI. pose proof PI_RGT_0. field. lra.
Qed.

Lemma not_in_cons {A : Type} (a b : A) (l : list A) :
  ~ In a (b :: l) -> a <> b /\ ~ In a l.
Proof. cbn. intuition congruence. Qed.

Lemma eqb_neq (s t : string) : s <> t -> String.eqb s t = false.
Proof. intros H. now destruct (String.eqb_spec s t). Qed.

(** X11. For a projection id that reaches the [default] case of
    [projectPoint], [inverseProject] undoes [projectPoint] and
    [projectPoint] undoes [inverseProject], the plane being rescaled from
    percent to the unit square. *)
Theorem equirectangular_round_trip (lat0 lon0 nx ny : R)
    (projection : string) (width height : R) :
  ~ In projection
      ["mercator"; "mollweide"; "sinusoidal"; "robinson"; "lambert"]%string ->
  (exists pt,
     projectPoint lat0 lon0 projection width height = Some pt
     /\ inverseProject (x pt / 100) (y pt / 100) projection
        = mkPoint lat0 lon0)
  /\ projectPoint (lat (inverseProject nx ny projection))
       (lon (inverseProject nx ny projection)) projection width height
     = Some (mkPlanar (nx * 100) (ny * 100)).
Proof.
  intros Hid.
  assert (Hm : String.eqb projection "mercator" = false).
  { apply eqb_neq. intros ->. apply Hid. now left. }
  split.
  - eexists. split; [now apply projectPoint_default_at|].
    unfold inverseProject. rewrite Hm. cbn [x y]. f_equal; field.
  - rewrite projectPoint_default_at by exact Hid.
    unfold inverseProject. rewrite Hm. cbn [lat lon].
    f_equal. f_equal; field.
Qed.

Lemma equirectangular_round_trip_witness :
  exists pt,
    projectPoint 40 (-3) "equirectangular" 100 100 = Some pt
    /\ inverseProject (x pt / 100) (y pt / 100) "equirectangular"
       = mkPoint 40 (-3).
Proof.
  apply (equirectangular_round_trip 40 (-3) 0 0 "equirectangular" 100 100).
  cbn. intuition discriminate.
Defined.

Lemma projectPoint_mercator (lat0 lon0 width height : R) :
  projectPoint lat0 lon0 "mercator" width height
  = Some (mkPlanar
            ((lon0 + 180) / 360 * 100)
            ((0.5 - ln (tan (PI / 4
                             + toRadians (Math.max (- 85) (Math.min 85 lat0))
                               / 2))
                    / (2 * PI)) * 100)).
Proof. reflexivity. Qed.

Lemma inverseProject_mercator (nx ny : R) :
  inverseProject nx ny "mercator"
  = mkPoint
      (Math.max (-85)
         (Math.min 85
            (toDegrees (2 * atan (exp ((0.5 - ny) * 2 * PI)) - PI / 2))))
      (nx * 360 - 180).
Proof. reflexivity. Qed.

Lemma mercator_angle (lat0 : R) :
  -85 <= lat0 <= 85 -> 0 < PI / 4 + toRadians lat0 / 2 < PI / 2.
Proof.
  intros Hlat. unfold toRadians, Math.PI.
  pose proof PI_RGT_0 as Hpi.
  assert (H1 : -85 * PI <= lat0 * PI <= 85 * PI) by nra.
  lra.
Qed.

(** X12. For a latitude between -85 and 85 degrees, [inverseProject]
    undoes the mercator projection. *)
Theorem mercator_round_trip (lat0 lon0 width height : R) :
  -85 <= lat0 <= 85 ->
  exists pt,
    projectPoint lat0 lon0 "mercator" width height = Some pt
    /\ inverseProject (x pt / 100) (y pt / 100) "mercator"
       = mkPoint lat0 lon0.
Proof.
  intros Hlat. eexists. split; [apply projectPoint_mercator|].
  rewrite inverseProject_mercator. cbn [x y].
  rewrite (clamp_id (- 85) 85 lat0) by lra.
  pose proof (mercator_angle lat0 Hlat) as Hu.
  pose proof PI_RGT_0 as Hpi.
  set (u := PI / 4 + toRadians lat0 / 2) in *.
  assert (Ht : 0 < tan u) by (apply tan_gt_0; lra).
  replace ((0.5 - (0.5 - ln (tan u) / (2 * PI)) * 100 / 100) * 2 * PI)
    with (ln (tan u)) by (field; lra).
  rewrite exp_ln by exact Ht.
  rewrite atan_tan by lra.
  replace (2 * u - PI / 2) with (toRadians lat0) by (unfold u; lra).
  rewrite toDegrees_toRadians, clamp_id by lra.
  f_equal. field.
Qed.

Lemma mercator_round_trip_witness :
  exists pt,
    projectPoint 60 10 "mercator" 100 100 = Some pt
    /\ inverseProject (x pt / 100) (y pt / 100) "mercator" = mkPoint 60 10.
Proof. apply (mercator_round_trip 60 10 100 100). lra. Defined.

(** X13. [inverseProject] of a point of the unit square is a valid
    position: the latitude is between -90 and 90 and the longitude between
    -180 and 180, whatever the projection id; for mercator the latitude is
    between -85 and 85 for every argument. *)
Theorem inverseProject_valid (nx ny : R) (projection : string) :
  0 <= nx <= 1 -> 0 <= ny <= 1 ->
  -90 <= lat (inverseProject nx ny projection) <= 90
  /\ -180 <= lon (inverseProject nx ny projection) <= 180
  /\ (forall nx' ny',
        -85 <= lat (inverseProject nx' ny' "mercator") <= 85).
Proof.
  intros Hx Hy.
  assert (Hclamp : forall v, -85 <= Math.max (-85) (Math.min 85 v) <= 85).
  { intros v.
    destruct (clamp_cases (-85) 85 v) as [[_ E]|[[H E]|[_ E]]];
      try lra; rewrite E; lra. }
  split; [|split].
  - unfold inverseProject. destruct (String.eqb projection "mercator");
      cbn [lat].
    + specialize (Hclamp
        (toDegrees (2 * Math.atan (Math.exp ((0.5 - ny) * 2 * Math.PI))
                    - Math.PI / 2))). lra.
    + lra.
  - unfold inverseProject. destruct (String.eqb projection "mercator");
      cbn [lon]; lra.
  - intros nx' ny'. rewrite inverseProject_mercator. cbn [lat].
    apply Hclamp.
Qed.

Lemma inverseProject_valid_witness :
  -90 <= lat (inverseProject 0.25 0.75 "robinson") <= 90.
Proof.
  apply (inverseProject_valid 0.25 0.75 "robinson"); lra.
Defined.

(** X14. The mercator projection clamps the latitude: every latitude of
    85 degrees or more is drawn where 85 is, and every latitude of -85 or
    less where -85 is. *)
Theorem mercator_clamp (lat0 lon0 width height : R) :
  (85 <= lat0 ->
     projectPoint lat0 lon0 "mercator" width height
     = projectPoint 85 lon0 "mercator" width height)
  /\ (lat0 <= -85 ->
     projectPoint lat0 lon0 "mercator" width height
     = projectPoint (-85) lon0 "mercator" width height).
Proof.
  split; intros Hlat; rewrite !projectPoint_mercator.
  - destruct (clamp_cases (- 85) 85 lat0) as [[H E]|[[H E]|[H E]]];
      try lra; rewrite E, (clamp_id (- 85) 85 85) by lra; try reflexivity.
    now replace lat0 with 85 by lra.
  - destruct (clamp_cases (- 85) 85 lat0) as [[H E]|[[H E]|[H E]]];
      try lra; rewrite E, (clamp_id (- 85) 85 (-85)) by lra.
    + reflexivity.
    + now replace lat0 with (-85) by lra.
Qed.

Lemma mercator_clamp_witness :
  projectPoint 90 0 "mercator" 100 100 = projectPoint 85 0 "mercator" 100 100.
Proof. apply (mercator_clamp 90 0 100 100). lra. Defined.

Lemma robinsonIdx_lat (lat0 : R) :
  -90 <= lat0 <= 90 ->
  5 * IZR (robinsonIdx lat0) <= Math.abs lat0 <= 5 * IZR (robinsonIdx lat0) + 5.
Proof.
  intros Hlat. unfold robinsonIdx. rewrite robinsonTable_length.
  assert (Habs : 0 <= Math.abs lat0 <= 90).
  { unfold Math.abs. split; [apply Rabs_pos|]. apply Rabs_le. lra. }
  pose proof (Zfloor_bound (Math.abs lat0 / 5)) as [Hlo Hhi].
  unfold Math.floor.
  destruct (Z.geb_spec (Zfloor (Math.abs lat0 / 5)) (Z.of_nat 19 - 1))
    as [Hge|Hlt].
  - apply IZR_le in Hge.
    replace (IZR (Z.of_nat 19 - 1)) with 18 in Hge by (cbn; lra).
    replace (IZR (Z.of_nat 19 - 2)) with 17 by (cbn; lra). lra.
  - lra.
Qed.

Lemma robinsonTable_row (i : Z) :
  (0 <= i <= 18)%Z ->
  exists r0 r1 r2,
    js_index robinsonTable i = Some (r0, r1, r2)
    /\ r0 = 5 * IZR i /\ 0 <= r1 <= 1 /\ 0 <= r2 <= 1.
Proof.
  intros Hi. unfold js_index.
  destruct (Z.ltb_spec i 0) as [H|_]; [lia|].
  remember (Z.to_nat i) as n eqn:En.
  assert (Ei : i = Z.of_nat n) by lia.
  assert (Hn : (n <= 18)%nat) by lia.
  clear En. subst i.
  do 19 (destruct n as [|n];
         [cbn; do 3 eexists; split; [reflexivity|]; split; lra|]).
  exfalso. lia.
Qed.

Lemma projectPoint_robinson_square (lat0 lon0 width height : R) :
  -90 <= lat0 <= 90 -> -180 <= lon0 <= 180 ->
  exists pt,
    projectPoint lat0 lon0 "robinson" width height = Some pt
    /\ 0 <= x pt <= 100 /\ 0 <= y pt <= 100.
Proof.
  intros Hlat Hlon.
  pose proof (robinsonIdx_range lat0) as Hidx.
  pose proof (robinsonIdx_lat lat0 Hlat) as Ht.
  unfold projectPoint. cbn [String.eqb Ascii.eqb Bool.eqb].
  set (idx := robinsonIdx lat0) in *.
  destruct (robinsonTable_row idx) as (r0 & r1 & r2 & -> & Hr0 & Hr1 & Hr2);
    [lia|].
  destruct (robinsonTable_row (idx + 1))
    as (s0 & s1 & s2 & -> & _ & Hs1 & Hs2); [lia|].
  eexists. split; [reflexivity|]. cbn [x y].
  set (t := (Math.abs lat0 - r0) / 5).
  assert (Ht01 : 0 <= t <= 1) by (unfold t; lra).
  assert (Hplen : 0 <= r1 * (1 - t) + s1 * t <= 1) by nra.
  assert (Hpdfe : 0 <= r2 * (1 - t) + s2 * t <= 1) by nra.
  set (plen := r1 * (1 - t) + s1 * t) in *.
  set (pdfe := r2 * (1 - t) + s2 * t) in *.
  assert (Hl : -1 <= lon0 / 180 <= 1) by lra.
  set (l := lon0 / 180) in *.
  split; [nra|].
  destruct (js_lt lat0 0); nra.
Qed.

(** X15. For a latitude between -90 and 90, a longitude between -180 and
    180 and every projection id other than mercator and mollweide,
    [projectPoint] returns a point of the square [0,100] x [0,100]. *)
Theorem projectPoint_in_square (lat0 lon0 : R) (projection : string)
    (width height : R) :
  -90 <= lat0 <= 90 -> -180 <= lon0 <= 180 ->
  projection <> "mercator"%string -> projection <> "mollweide"%string ->
  exists pt,
    projectPoint lat0 lon0 projection width height = Some pt
    /\ 0 <= x pt <= 100 /\ 0 <= y pt <= 100.
Proof.
  intros Hlat Hlon Hme Hmo.
  destruct (String.eqb_spec projection "robinson") as [->|Hro];
    [now apply projectPoint_robinson_square|].
  unfold projectPoint.
  rewrite (eqb_neq _ _ Hme), (eqb_neq _ _ Hmo), (eqb_neq _ _ Hro).
  pose proof PI_RGT_0 as Hpi.
  destruct (String.eqb projection "sinusoidal");
    [|destruct (String.eqb projection "lambert")];
    eexists; (split; [reflexivity|]); cbn [x y].
  - pose proof (COS_bound (toRadians lat0)) as Hc.
    replace (toRadians lon0 * Math.cos (toRadians lat0) / Math.PI)
      with (lon0 / 180 * Math.cos (toRadians lat0))
      by (unfold toRadians, Math.PI; field; lra).
    replace (toRadians lat0 / Math.PI) with (lat0 / 180)
      by (unfold toRadians, Math.PI; field; lra).
    fold (Math.cos (toRadians lat0)) in Hc.
    set (c := Math.cos (toRadians lat0)) in *.
    assert (Hl : -1 <= lon0 / 180 <= 1) by lra.
    set (l := lon0 / 180) in *.
    split; [nra|lra].
  - pose proof (SIN_bound (toRadians lat0)) as Hs.
    fold (Math.sin (toRadians lat0)) in Hs. lra.
  - lra.
Qed.

Lemma projectPoint_in_square_witness :
  exists pt,
    projectPoint 45 90 "robinson" 100 100 = Some pt
    /\ 0 <= x pt <= 100 /\ 0 <= y pt <= 100.
Proof.
  apply (projectPoint_in_square 45 90 "robinson" 100 100);
    try lra; discriminate.
Defined.

(** X16. In every projection but mollweide the picture is symmetric
    about the central meridian: the opposite longitude has the same [y]
    and the mirrored [x], 100 - x. *)
Theorem projectPoint_mirror_lon (lat0 lon0 : R) (projection : string)
    (width height : R) :
  projection <> "mollweide"%string ->
  projectPoint lat0 (- lon0) projection width height
  = option_map (fun pt => mkPlanar (100 - x pt) (y pt))
      (projectPoint lat0 lon0 projection width height).
Proof.
  intros Hmo.
  unfold projectPoint. rewrite toRadians_opp, (eqb_neq _ _ Hmo).
  repeat match goal with
  | |- context [String.eqb projection ?s] =>
      destruct (String.eqb projection s)
  end;
  repeat match goal with
  | |- context [js_index robinsonTable ?i] =>
      destruct (js_index robinsonTable i) as [[[? ?] ?]|]
  end;
  cbn [option_map x y]; try reflexivity;
  f_equal; f_equal; try lra;
  (field; unfold Math.PI; pose proof PI_RGT_0; lra).
Qed.

Lemma projectPoint_mirror_lon_witness :
  projectPoint 40 (- (30)) "sinusoidal" 100 100
  = option_map (fun pt => mkPlanar (100 - x pt) (y pt))
      (projectPoint 40 30 "sinusoidal" 100 100).
Proof.
  apply (projectPoint_mirror_lon 40 30 "sinusoidal" 100 100). discriminate.
Defined.

Lemma clamp_opp (hi v : R) :
  0 <= hi ->
  Math.max (- hi) (Math.min hi (- v)) = - Math.max (- hi) (Math.min hi v).
Proof.
  intros Hhi.
  destruct (clamp_cases (- hi) hi v) as [[H E]|[[H E]|[H E]]]; [lra| | |];
    destruct (clamp_cases (- hi) hi (- v)) as [[H' E']|[[H' E']|[H' E']]];
    try lra; rewrite E, E'; lra.
Qed.

Lemma clamp_range (lo hi v : R) :
  lo <= hi -> lo <= Math.max lo (Math.min hi v) <= hi.
Proof.
  intros H.
  destruct (clamp_cases lo hi v H) as [[_ E]|[[Hv E]|[_ E]]]; rewrite E; lra.
Qed.

(** On the clamped latitudes the mercator ordinate is odd. *)
Lemma mercator_ln_opp (lat0 : R) :
  -85 <= lat0 <= 85 ->
  ln (tan (PI / 4 + toRadians (- lat0) / 2))
  = - ln (tan (PI / 4 + toRadians lat0 / 2)).
Proof.
  intros Hlat. pose proof (mercator_angle lat0 Hlat) as Hu.
  rewrite toRadians_opp.
  set (u := PI / 4 + toRadians lat0 / 2) in *.
  replace (PI / 4 + - toRadians lat0 / 2) with (PI / 2 - u)
    by (unfold u; lra).
  assert (Hs : 0 < sin u) by (apply sin_gt_0; pose proof PI_RGT_0; lra).
  assert (Hc : 0 < cos u) by (apply cos_gt_0; lra).
  assert (Ht : 0 < tan u) by (apply tan_gt_0; lra).
  replace (tan (PI / 2 - u)) with (/ tan u).
  - now apply ln_Rinv.
  - unfold tan. rewrite sin_shift, cos_shift. field. lra.
Qed.

Lemma robinsonIdx_opp (lat0 : R) : robinsonIdx (- lat0) = robinsonIdx lat0.
Proof. unfold robinsonIdx, Math.abs. now rewrite Rabs_Ropp. Qed.

Lemma projectPoint_robinson_equator (lon0 width height : R) :
  projectPoint 0 lon0 "robinson" width height
  = Some (mkPlanar ((0.5 + lon0 / 180 * 1.0000 * 0.45) * 100) 50).
Proof.
  unfold projectPoint. cbn [String.eqb Ascii.eqb Bool.eqb].
  rewrite robinsonIdx_equator.
  change (js_index robinsonTable 0) with (Some (0, 1.0000, 0.0000)).
  change (js_index robinsonTable (0 + 1)) with (Some (5, 0.9986, 0.0620)).
  rewrite js_lt_false by lra. unfold Math.abs. rewrite Rabs_R0.
  f_equal. f_equal; lra.
Qed.

(** X17. In every projection but mollweide the picture is symmetric
    about the equator: the opposite latitude has the same [x] and the
    mirrored [y], 100 - y. *)
Theorem projectPoint_mirror_lat (lat0 lon0 : R) (projection : string)
    (width height : R) :
  projection <> "mollweide"%string ->
  projectPoint (- lat0) lon0 projection width height
  = option_map (fun pt => mkPlanar (x pt) (100 - y pt))
      (projectPoint lat0 lon0 projection width height).
Proof.
  intros Hmo. pose proof PI_RGT_0 as Hpi.
  destruct (String.eqb_spec projection "mercator") as [->|Hme].
  { rewrite !projectPoint_mercator. cbn [option_map x y].
    change (- 85) with (- (85)). rewrite clamp_opp by lra.
    pose proof (clamp_range (- (85)) 85 lat0) as Hc.
    rewrite mercator_ln_opp by lra.
    f_equal. f_equal.
    match goal with
    | |- context [- ?t / ?d] =>
        replace (- t / d) with (- (t / d)) by (unfold Rdiv; ring)
    end.
    lra. }
  destruct (String.eqb_spec projection "robinson") as [->|Hro].
  { destruct (Req_dec_T lat0 0) as [->|Hnz].
    - replace (- 0) with 0 by lra.
      rewrite projectPoint_robinson_equator. cbn [option_map x y].
      f_equal. f_equal. lra.
    - unfold projectPoint. cbn [String.eqb Ascii.eqb Bool.eqb].
      rewrite robinsonIdx_opp. unfold Math.abs. rewrite Rabs_Ropp.
      destruct (js_index robinsonTable (robinsonIdx lat0))
        as [[[r0 r1] r2]|]; [|reflexivity].
      destruct (js_index robinsonTable (robinsonIdx lat0 + 1))
        as [[[s0 s1] s2]|]; [|reflexivity].
      cbn [option_map x y]. f_equal. f_equal.
      destruct (Rlt_dec lat0 0).
      + rewrite (js_lt_true lat0), (js_lt_false (- lat0)) by lra. lra.
      + rewrite (js_lt_false lat0), (js_lt_true (- lat0)) by lra. lra. }
  unfold projectPoint.
  rewrite (eqb_neq _ _ Hme), (eqb_neq _ _ Hro), (eqb_neq _ _ Hmo).
  rewrite toRadians_opp, !sin_opp, !cos_opp.
  repeat match goal with
  | |- context [String.eqb projection ?s] =>
      destruct (String.eqb projection s)
  end;
  cbn [option_map x y]; f_equal; f_equal; try lra;
  (field; unfold Math.PI; lra).
Qed.

Lemma projectPoint_mirror_lat_witness :
  projectPoint (- (40)) 30 "mercator" 100 100
  = option_map (fun pt => mkPlanar (x pt) (100 - y pt))
      (projectPoint 40 30 "mercator" 100 100).
Proof.
  apply (projectPoint_mirror_lat 40 30 "mercator" 100 100). discriminate.
Defined.

(** X18. At every latitude the scale factor is 1 for each projection id
    other than mercator and lambert, and for any id it is the same north
    and south of the equator; short of the poles it is at least 1. *)
Theorem getScaleFactor_bounds (lat0 : R) (projection : string) :
  getScaleFactor (- lat0) projection = getScaleFactor lat0 projection
  /\ (projection <> "mercator"%string -> projection <> "lambert"%string ->
      getScaleFactor lat0 projection = 1)
  /\ (-90 < lat0 < 90 -> 1 <= getScaleFactor lat0 projection).
Proof.
  split; [|split].
  - unfold getScaleFactor, Math.abs. now rewrite Rabs_Ropp.
  - intros Hme Hla. unfold getScaleFactor.
    now rewrite (eqb_neq _ _ Hme), (eqb_neq _ _ Hla).
  - intros Hlat. pose proof PI_RGT_0 as Hpi.
    assert (Habs : 0 <= Math.abs lat0 < 90).
    { unfold Math.abs. split; [apply Rabs_pos|]. apply Rabs_def1; lra. }
    assert (Hc : 0 < Math.cos (toRadians (Math.abs lat0)) <= 1).
    { split; [|apply COS_bound].
      assert (Hr : 0 <= Math.abs lat0 * PI < 90 * PI) by nra.
      apply cos_gt_0; unfold toRadians, Math.PI; lra. }
    assert (Hsec : 1 <= 1 / Math.cos (toRadians (Math.abs lat0))).
    { apply Rmult_le_reg_r with (Math.cos (toRadians (Math.abs lat0)));
        [lra|].
      unfold Rdiv. rewrite Rmult_assoc, Rinv_l by lra. lra. }
    unfold getScaleFactor.
    destruct (String.eqb projection "mercator"); [exact Hsec|].
    destruct (String.eqb projection "lambert"); [exact Hsec|lra].
Qed.

Lemma getScaleFactor_bounds_witness : 1 <= getScaleFactor 60 "mercator".
Proof. apply (getScaleFactor_bounds 60 "mercator"). lra. Defined.

(** ** The sphere *)

(** X19. [latLonToVector3] gives a point of the sphere of the given
    radius about the origin (radius 2 when none is given), at the height
    radius * sin(latitude). *)
Theorem latLonToVector3_on_sphere (lat0 lon0 : R) (radius : option R) :
  let r := match radius with Some r => r | None => 2 end in
  let v := latLonToVector3 lat0 lon0 radius in
  Vector3.x v ^ 2 + Vector3.y v ^ 2 + Vector3.z v ^ 2 = r ^ 2
  /\ Vector3.y v = r * Math.sin (toRadians lat0).
Proof.
  intros r v. unfold v, latLonToVector3. fold r.
  cbn [Vector3.x Vector3.y Vector3.z].
  set (phi := (90 - lat0) * (Math.PI / 180)).
  set (theta := (lon0 + 180) * (Math.PI / 180)).
  pose proof (sin2_cos2 phi) as Hp. pose proof (sin2_cos2 theta) as Ht.
  unfold Rsqr in Hp, Ht. unfold Math.sin, Math.cos.
  split.
  - replace ((- r * sin phi * cos theta) ^ 2 + (r * cos phi) ^ 2
             + (r * sin phi * sin theta) ^ 2)
      with (r ^ 2 * (sin phi * sin phi * (sin theta * sin theta
                                          + cos theta * cos theta)
                     + cos phi * cos phi)) by ring.
    rewrite Ht, Rmult_1_r, Hp. ring.
  - replace phi with (PI / 2 - toRadians lat0)
      by (unfold phi, toRadians, Math.PI; lra).
    now rewrite cos_shift.
Qed.

(** ** UTM, continued *)

Lemma toFixed2_500000 : toFixed2 500000 = "500000.00"%string.
Proof. rewrite (toFixed2_nonneg 500000 50000000) by lra. reflexivity. Qed.

Lemma latLonToUTM_core_central (lat0 : R) (k : Z) :
  latLonToUTM_core lat0 (6 * IZR k - 177)
  = ((k + 1)%Z, 500000, snd (latLonToUTM_core lat0 (6 * IZR k - 177))).
Proof.
  unfold latLonToUTM_core. cbn [snd].
  assert (Hz : Math.floor ((6 * IZR k - 177 + 180) / 6) = k).
  { unfold Math.floor. apply Zfloor_eq. lra. }
  rewrite Hz.
  replace ((IZR (k + 1) - 1) * 6 - 180 + 3) with (6 * IZR k - 177)
    by (rewrite plus_IZR; lra).
  replace (toRadians (6 * IZR k - 177) - toRadians (6 * IZR k - 177))
    with 0 by ring.
  rewrite Rmult_0_r. f_equal. f_equal.
  unfold Rdiv. ring.
Qed.

(** X20. On the central meridian of a zone, longitude 6k - 177 for a
    whole number k, the zone is k + 1 and the easting is the false easting
    500000.00, at every latitude. *)
Theorem latLonToUTM_central_meridian (lat0 : R) (k : Z) :
  zone (latLonToUTM lat0 (6 * IZR k - 177)) = (k + 1)%Z
  /\ easting (latLonToUTM lat0 (6 * IZR k - 177)) = "500000.00"%string.
Proof.
  unfold latLonToUTM. rewrite latLonToUTM_core_central.
  cbn [zone easting]. split; [reflexivity|apply toFixed2_500000].
Qed.

Lemma latLonToUTM_core_equator (lon0 : R) :
  snd (latLonToUTM_core 0 lon0) = 0.
Proof.
  unfold latLonToUTM_core. cbn [snd].
  rewrite toRadians_0, !Rmult_0_r.
  unfold Math.sin, Math.tan. rewrite sin_0, tan_0.
  unfold Rdiv. ring.
Qed.

(** X21. On the equator the northing is 0.00 and the hemisphere is N, at
    every longitude. *)
Theorem latLonToUTM_equator (lon0 : R) :
  northing (latLonToUTM 0 lon0) = "0.00"%string
  /\ hemisphere (latLonToUTM 0 lon0) = "N"%string.
Proof.
  pose proof (latLonToUTM_core_equator lon0) as H0.
  unfold latLonToUTM.
  destruct (latLonToUTM_core 0 lon0) as [[z e0] n0]. cbn [snd] in H0.
  subst n0. cbn [northing hemisphere]. js_cmp.
  split; [apply toFixed2_0|reflexivity].
Qed.

(** Before the false northing, the northing is an odd function of the
    latitude. *)
Lemma latLonToUTM_core_northing_odd (lat0 lon0 : R) :
  snd (latLonToUTM_core (- lat0) lon0) = - snd (latLonToUTM_core lat0 lon0).
Proof.
  unfold latLonToUTM_core. cbn [snd].
  rewrite toRadians_opp, tan_opp_sqr, sin_opp_sqr, cos_opp.
  replace (2 * - toRadians lat0) with (- (2 * toRadians lat0)) by ring.
  replace (4 * - toRadians lat0) with (- (4 * toRadians lat0)) by ring.
  replace (6 * - toRadians lat0) with (- (6 * toRadians lat0)) by ring.
  rewrite !sin_opp. unfold Math.tan. rewrite tan_neg.
  unfold Rdiv. ring.
Qed.

(** X22. North and south of the equator mirror each other: for a
    latitude above 0 with northing [n] before rounding, the point at the
    opposite latitude has the northing 10,000,000 - [n] before rounding,
    and the same zone and easting. *)
Theorem latLonToUTM_south_mirror (lat0 lon0 : R) :
  0 < lat0 ->
  let n := snd (latLonToUTM_core lat0 lon0) in
  northing (latLonToUTM lat0 lon0) = toFixed2 n
  /\ northing (latLonToUTM (- lat0) lon0) = toFixed2 (10000000 - n)
  /\ zone (latLonToUTM (- lat0) lon0) = zone (latLonToUTM lat0 lon0)
  /\ easting (latLonToUTM (- lat0) lon0) = easting (latLonToUTM lat0 lon0).
Proof.
  intros Hlat n.
  pose proof (latLonToUTM_core_northing_odd lat0 lon0) as Hodd.
  pose proof (latLonToUTM_core_easting_even lat0 lon0) as Heven.
  pose proof (latLonToUTM_core_zone_lat (- lat0) lat0 lon0) as Hzone.
  unfold n, latLonToUTM.
  destruct (latLonToUTM_core (- lat0) lon0) as [[z' e'] n'].
  destruct (latLonToUTM_core lat0 lon0) as [[z0 e0] n0].
  cbn [fst snd] in *. subst z' e' n'.
  cbn [zone easting northing]. js_cmp.
  repeat split. f_equal. lra.
Qed.

Lemma latLonToUTM_south_mirror_witness :
  zone (latLonToUTM (- (45)) 10) = zone (latLonToUTM 45 10).
Proof. apply (latLonToUTM_south_mirror 45 10). lra. Defined.

(** ** Azimuth and quadrant bearing, continued *)






Lemma calculateAzimuth_bounds (lat1 lon1 lat2 lon2 : R) :
  0 <= calculateAzimuth lat1 lon1 lat2 lon2 < 360.
Proof.
  unfold calculateAzimuth.
  match goal with
  | |- context [toDegrees (Math.atan2 ?y ?x)] =>
      pose proof (toDegrees_range _ (atan2_range y x)) as Hd;
      set (degrees := toDegrees (Math.atan2 y x)) in *
  end.
  destruct (Rlt_dec degrees 0).
  - rewrite js_lt_true by assumption. lra.
  - rewrite js_lt_false by lra. lra.
Qed.

(** X24. For an azimuth from 0 up to 360 the angle of the bearing is the
    printed form of a number between 0 and 90, and the quadrant with that
    number gives the azimuth back: NE is v, SE is 180 - v, SW is 180 + v
    and NW is 360 - v. *)
Theorem azimuthToRumbo_angle (azimuth : R) :
  0 <= azimuth < 360 ->
  exists v : R,
    angle (azimuthToRumbo azimuth) = toFixed2 v
    /\ 0 <= v <= 90
    /\ ((quadrant (azimuthToRumbo azimuth) = "NE"%string /\ azimuth = v)
        \/ (quadrant (azimuthToRumbo azimuth) = "SE"%string
            /\ azimuth = 180 - v)
        \/ (quadrant (azimuthToRumbo azimuth) = "SW"%string
            /\ azimuth = 180 + v)
        \/ (quadrant (azimuthToRumbo azimuth) = "NW"%string
            /\ azimuth = 360 - v)).
Proof.
  intros Haz. unfold azimuthToRumbo.
  destruct (Rlt_dec azimuth 90); [|destruct (Rlt_dec azimuth 180);
    [|destruct (Rlt_dec azimuth 270)]]; js_cmp; cbn [andb angle quadrant].
  - exists azimuth. repeat split; try lra. now left.
  - exists (180 - azimuth). repeat split; try lra. right. left. split; [easy|lra].
  - exists (azimuth - 180). repeat split; try lra.
    right. right. left. split; [easy|lra].
  - exists (360 - azimuth). repeat split; try lra.
    right. right. right. split; [easy|lra].
Qed.

Lemma azimuthToRumbo_angle_witness :
  exists v : R,
    angle (azimuthToRumbo 135) = toFixed2 v
    /\ 0 <= v <= 90
    /\ ((quadrant (azimuthToRumbo 135) = "NE"%string /\ 135 = v)
        \/ (quadrant (azimuthToRumbo 135) = "SE"%string /\ 135 = 180 - v)
        \/ (quadrant (azimuthToRumbo 135) = "SW"%string /\ 135 = 180 + v)
        \/ (quadrant (azimuthToRumbo 135) = "NW"%string /\ 135 = 360 - v)).
Proof. apply (azimuthToRumbo_angle 135). lra. Defined.

(** X25. The bearing of the azimuth between any two points has an angle
    that is the printed form of a number between 0 and 90. *)
Theorem azimuthToRumbo_of_calculateAzimuth (lat1 lon1 lat2 lon2 : R) :
  exists v : R,
    angle (azimuthToRumbo (calculateAzimuth lat1 lon1 lat2 lon2))
    = toFixed2 v
    /\ 0 <= v <= 90.
Proof.
  pose proof (calculateAzimuth_bounds lat1 lon1 lat2 lon2) as Hb.
  set (azimuth := calculateAzimuth lat1 lon1 lat2 lon2) in *.
  unfold azimuthToRumbo.
  destruct (Rlt_dec azimuth 90); [|destruct (Rlt_dec azimuth 180);
    [|destruct (Rlt_dec azimuth 270)]]; js_cmp; cbn [andb angle].
  - exists azimuth. split; [reflexivity|lra].
  - exists (180 - azimuth). split; [reflexivity|lra].
  - exists (azimuth - 180). split; [reflexivity|lra].
  - exists (360 - azimuth). split; [reflexivity|lra].
Qed.

(** ** Vincenty, continued *)

Lemma reducedLatitude_opp (φ : R) :
  reducedLatitude (- φ)
  = (fst (reducedLatitude φ), - snd (reducedLatitude φ)).
Proof.
  unfold reducedLatitude. cbn [fst snd]. unfold Math.tan. rewrite tan_neg.
  replace ((1 - WGS84.f) * - tan φ * ((1 - WGS84.f) * - tan φ))
    with ((1 - WGS84.f) * tan φ * ((1 - WGS84.f) * tan φ)) by ring.
  f_equal. ring.
Qed.

Section EquatorMirror.

Variables (L sinU1 cosU1 sinU2 cosU2 : R).

Lemma sinσ_of_mirror (λ0 : R) :
  sinσ_of (- sinU1) cosU1 (- sinU2) cosU2 λ0
  = sinσ_of sinU1 cosU1 sinU2 cosU2 λ0.
Proof. unfold sinσ_of. f_equal. ring. Qed.

Lemma vincentyPass_mirror (λ0 : R) :
  vincentyPass L (- sinU1) cosU1 (- sinU2) cosU2 λ0
  = vincentyPass L sinU1 cosU1 sinU2 cosU2 λ0.
Proof.
  unfold vincentyPass. rewrite sinσ_of_mirror.
  replace (- sinU1 * - sinU2) with (sinU1 * sinU2) by ring.
  replace (2 * - sinU1 * - sinU2) with (2 * sinU1 * sinU2) by ring.
  reflexivity.
Qed.

Lemma vincentyLoop_mirror (iterLimit : nat) :
  forall (λ0 : R) (passes : nat),
  vincentyLoop L (- sinU1) cosU1 (- sinU2) cosU2 iterLimit λ0 passes
  = vincentyLoop L sinU1 cosU1 sinU2 cosU2 iterLimit λ0 passes.
Proof.
  induction iterLimit as [|n IH]; intros λ0 passes;
    cbn [vincentyLoop]; rewrite sinσ_of_mirror, vincentyPass_mirror;
    [reflexivity|].
  destruct (js_eq (sinσ_of sinU1 cosU1 sinU2 cosU2 λ0) 0); [reflexivity|].
  destruct (js_gt _ 1e-12); [|reflexivity].
  destruct n as [|n']; [reflexivity|]. apply IH.
Qed.

End EquatorMirror.

(** X26. The distance does not change when both points are reflected in
    the equator, nor when both longitudes are shifted by the same
    amount. *)
Theorem vincentyDistance_invariant (lat1 lon1 lat2 lon2 d : R) :
  vincentyDistance (- lat1) lon1 (- lat2) lon2
  = vincentyDistance lat1 lon1 lat2 lon2
  /\ vincentyDistance lat1 (lon1 + d) lat2 (lon2 + d)
     = vincentyDistance lat1 lon1 lat2 lon2.
Proof.
  split.
  - unfold vincentyDistance, vincentyIterate.
    rewrite !toRadians_opp, !reducedLatitude_opp.
    destruct (reducedLatitude (toRadians lat1)) as [cosU1 sinU1].
    destruct (reducedLatitude (toRadians lat2)) as [cosU2 sinU2].
    cbn [fst snd]. now rewrite vincentyLoop_mirror.
  - unfold vincentyDistance, vincentyIterate.
    now replace (lon2 + d - (lon1 + d)) with (lon2 - lon1) by ring.
Qed.

(** ** Geodesic area, continued *)

(** X27. For a quadrilateral bounded by two parallels and two meridians
    the area returned is that of the same region on a sphere of radius a:
    a^2 |Δλ (sin φ2 - sin φ1)|, with Δλ in radians. *)
Theorem calculateGeodesicArea_graticule (lat1 lat2 lon1 lon2 : R) :
  calculateGeodesicArea
    [mkPoint lat1 lon1; mkPoint lat1 lon2; mkPoint lat2 lon2;
     mkPoint lat2 lon1]
  = WGS84.a ^ 2
    * Rabs (toRadians (lon2 - lon1)
            * (sin (toRadians lat2) - sin (toRadians lat1))).
Proof.
  unfold calculateGeodesicArea. cbn [List.length Nat.ltb Nat.leb].
  rewrite areaSum_path by discriminate.
  cbn [pathSum List.length Nat.sub pts_at nth].
  unfold edgeTerm. cbn [lat lon]. unfold Math.sin, Math.abs.
  replace (lon2 - lon2) with 0 by lra.
  replace (lon1 - lon1) with 0 by lra.
  rewrite toRadians_0, (toRadians_swap lon1 lon2).
  match goal with
  | |- Rabs ?e = _ =>
      replace e
        with (WGS84.a ^ 2
              * - (toRadians (lon2 - lon1)
                   * (sin (toRadians lat2) - sin (toRadians lat1))))
        by (unfold Rdiv; field)
  end.
  rewrite Rabs_mult, Rabs_Ropp.
  rewrite (Rabs_pos_eq (WGS84.a ^ 2)) by (apply pow2_ge_0).
  reflexivity.
Qed.

(** ** The values derived by the component *)

Lemma centroidSums_lon_bounds (pts : list GeoPoint) (lo hi : R) :
  Forall (fun p => lo <= lon p <= hi) pts ->
  INR (List.length pts) * lo <= snd (centroidSums pts)
                             <= INR (List.length pts) * hi.
Proof.
  induction 1 as [|p pts Hp _ IH].
  - cbn. lra.
  - rewrite centroidSums_cons. cbn [snd].
    change (List.length (p :: pts)) with (S (List.length pts)).
    rewrite S_INR. lra.
Qed.

Lemma calculateCentroid_lon_bounds (pts : list GeoPoint) (lo hi : R) :
  pts <> [] ->
  Forall (fun p => lo <= lon p <= hi) pts ->
  lo <= lon (calculateCentroid pts) <= hi.
Proof.
  intros Hne Hall.
  pose proof (centroidSums_lon_bounds pts lo hi Hall) as Hs.
  unfold calculateCentroid.
  destruct pts as [|p pts]; [congruence|].
  set (l := p :: pts) in *.
  replace (List.length l =? 0)%nat with false by reflexivity.
  assert (Hn : 0 < INR (List.length l)) by (apply lt_0_INR; cbn; lia).
  destruct (centroidSums l) as [sumLat sumLon]. cbn [snd lon] in *.
  set (n := INR (List.length l)) in *.
  split.
  - apply Rmult_le_reg_r with n; [exact Hn|].
    unfold Rdiv. rewrite Rmult_assoc, Rinv_l by lra. lra.
  - apply Rmult_le_reg_r with n; [exact Hn|].
    unfold Rdiv. rewrite Rmult_assoc, Rinv_l by lra. lra.
Qed.

Lemma latLonToUTM_zone_bounds (lat0 lon0 : R) :
  (-180 <= lon0 <= 180 -> (1 <= zone (latLonToUTM lat0 lon0) <= 61)%Z)
  /\ (-180 <= lon0 <= 179 -> (1 <= zone (latLonToUTM lat0 lon0) <= 60)%Z).
Proof.
  rewrite latLonToUTM_zone. unfold Math.floor.
  pose proof (Zfloor_bound ((lon0 + 180) / 6)) as [Hlo Hhi].
  split; intros Hlon.
  - assert (H0 : (0 <= Zfloor ((lon0 + 180) / 6))%Z)
      by (apply Zfloor_lub; lra).
    assert (H1 : (Zfloor ((lon0 + 180) / 6) < 61)%Z) by (apply lt_IZR; lra).
    lia.
  - assert (H0 : (0 <= Zfloor ((lon0 + 180) / 6))%Z)
      by (apply Zfloor_lub; lra).
    assert (H1 : (Zfloor ((lon0 + 180) / 6) < 60)%Z) by (apply lt_IZR; lra).
    lia.
Qed.

(** X28. For at least one point, all with longitudes from -180 to 180,
    [utmCentroid] is [latLonToUTM] of the centroid and its zone is between
    1 and 61; it is between 1 and 60 when no longitude is above 179.
    Without points there are no coordinates. *)
Theorem utmCentroid_zone (points : list GeoPoint) :
  points <> [] ->
  Forall (fun p => -180 <= lon p <= 180) points ->
  (exists utm,
     utmCentroid points = Some utm
     /\ utm = latLonToUTM (lat (calculateCentroid points))
                (lon (calculateCentroid points))
     /\ (1 <= zone utm <= 61)%Z
     /\ (Forall (fun p => lon p <= 179) points -> (zone utm <= 60)%Z))
  /\ utmCentroid [] = None.
Proof.
  intros Hne Hall. split; [|reflexivity].
  pose proof (calculateCentroid_lon_bounds points (-180) 180 Hne Hall) as Hc.
  unfold utmCentroid.
  destruct points as [|p pts]; [congruence|].
  set (l := p :: pts) in *.
  replace (0 <? List.length l)%nat with true by reflexivity.
  eexists. split; [reflexivity|]. split; [reflexivity|]. split.
  - now apply latLonToUTM_zone_bounds.
  - intros Hwest.
    assert (Hall' : Forall (fun q => -180 <= lon q <= 179) l).
    { rewrite Forall_forall in *. intros q Hq.
      specialize (Hall q Hq). specialize (Hwest q Hq). cbn in *. lra. }
    pose proof (calculateCentroid_lon_bounds l (-180) 179 Hne Hall') as Hc'.
    now apply latLonToUTM_zone_bounds.
Qed.

Lemma utmCentroid_zone_witness :
  exists utm,
    utmCentroid [mkPoint 10 20; mkPoint 30 (-40)] = Some utm
    /\ utm = latLonToUTM
               (lat (calculateCentroid [mkPoint 10 20; mkPoint 30 (-40)]))
               (lon (calculateCentroid [mkPoint 10 20; mkPoint 30 (-40)]))
    /\ (1 <= zone utm <= 61)%Z
    /\ (Forall (fun p => lon p <= 179) [mkPoint 10 20; mkPoint 30 (-40)] ->
        (zone utm <= 60)%Z).
Proof.
  apply (utmCentroid_zone [mkPoint 10 20; mkPoint 30 (-40)]).
  - discriminate.
  - repeat constructor; cbn [lon]; lra.
Defined.

Lemma length_removelast_pred {A : Type} (l : list A) :
  List.length (removelast l) = (List.length l - 1)%nat.
Proof.
  rewrite removelast_firstn_len, length_firstn. lia.
Qed.

Lemma nth_removelast (l : list GeoPoint) (i : nat) :
  (i < List.length l - 1)%nat -> pts_at (removelast l) i = pts_at l i.
Proof.
  intros Hi. unfold pts_at.
  assert (Hne : l <> []) by (destruct l; [cbn in Hi; lia|discriminate]).
  rewrite (app_removelast_last (mkPoint 0 0) Hne) at 2.
  now rewrite app_nth1 by (rewrite length_removelast_pred; exact Hi).
Qed.

Lemma map_combine_seq {B : Type} (f : nat -> GeoPoint -> B)
    (l : list GeoPoint) (s : nat) :
  map (fun '(i, p) => f i p) (combine (seq s (List.length l)) l)
  = map (fun i => f i (pts_at l (i - s))) (seq s (List.length l)).
Proof.
  revert s. induction l as [|a l IH]; intros s; [reflexivity|].
  cbn [List.length seq combine map]. f_equal.
  - now rewrite Nat.sub_diag.
  - rewrite IH. apply map_ext_in. intros i Hi. apply in_seq in Hi.
    unfold pts_at. replace (i - s)%nat with (S (i - S s)) by lia.
    reflexivity.
Qed.

Lemma azimuths_rows (points : list GeoPoint) :
  azimuths points
  = if (2 <=? List.length points)%nat
    then map (azimuthRow points) (seq 0 (List.length points - 1))
    else [].
Proof.
  unfold azimuths. destruct (2 <=? List.length points)%nat; [|reflexivity].
  rewrite (map_combine_seq
             (fun i p =>
                let q := pts_at points (i + 1) in
                AzimuthRow.mk (i + 1) (i + 2)
                  (calculateAzimuth (lat p) (lon p) (lat q) (lon q))
                  (vincentyDistance (lat p) (lon p) (lat q) (lon q)))).
  rewrite length_removelast_pred.
  apply map_ext_in. intros i Hi. apply in_seq in Hi.
  rewrite Nat.sub_0_r, nth_removelast by lia. reflexivity.
Qed.

(** X29. The table of azimuths has one row less than there are points;
    row [i] goes from point [i+1] to point [i+2] (counting from 1), its
    azimuth is at least 0 and at most 360 and its distance is the
    Vincenty distance between these two points; and for two points or
    more the perimeter is the sum of the distances of the table plus the
    distance from the last point back to the first. *)
Theorem azimuths_table (points : list GeoPoint) :
  List.length (azimuths points) = (List.length points - 1)%nat
  /\ (forall i row,
        nth_error (azimuths points) i = Some row ->
        AzimuthRow.from row = (i + 1)%nat
        /\ AzimuthRow.to row = (i + 2)%nat
        /\ 0 <= AzimuthRow.azimuth row <= 360
        /\ AzimuthRow.distance row
           = geodesicEdge (pts_at points i) (pts_at points (i + 1)))
  /\ ((2 <= List.length points)%nat ->
      calculatePerimeter points
      = fold_right Rplus 0 (map AzimuthRow.distance (azimuths points))
        + geodesicEdge (pts_at points (List.length points - 1))
            (pts_at points 0)).
Proof.
  rewrite azimuths_rows.
  destruct (Nat.leb_spec 2 (List.length points)) as [Hn|Hn].
  - split; [now rewrite length_map, length_seq|]. split.
    + intros i row Hrow.
      rewrite nth_error_map, nth_error_seq in Hrow.
      destruct (i <? List.length points - 1)%nat; [|discriminate].
      cbn in Hrow. injection Hrow as <-.
      unfold azimuthRow. cbn [AzimuthRow.from AzimuthRow.to
        AzimuthRow.azimuth AzimuthRow.distance].
      pose proof (calculateAzimuth_bounds
                    (lat (pts_at points i)) (lon (pts_at points i))
                    (lat (pts_at points (i + 1)))
                    (lon (pts_at points (i + 1)))) as Hb.
      repeat split; lra.
    + intros _. rewrite calculatePerimeter_circSum.
      destruct (Nat.ltb_spec (List.length points) 2) as [H|_]; [lia|].
      rewrite circSum_path by (destruct points; [cbn in Hn; lia|discriminate]).
      f_equal. rewrite <- pathSumOf_index, map_map.
      induction (seq 0 (List.length points - 1)) as [|i l IHl];
        [reflexivity|].
      cbn [map fold_right]. rewrite <- IHl.
      unfold azimuthRow at 1. cbn [AzimuthRow.distance].
      now replace (i + 1)%nat with (S i) by lia.
  - split; [cbn; lia|]. split.
    + intros i row Hrow. destruct i; discriminate.
    + intros H. lia.
Qed.

Lemma azimuths_table_witness :
  let points := [mkPoint 0 0; mkPoint 0 10; mkPoint 10 10] in
  calculatePerimeter points
  = fold_right Rplus 0 (map AzimuthRow.distance (azimuths points))
    + geodesicEdge (pts_at points (List.length points - 1)) (pts_at points 0).
Proof.
  intros points. apply (azimuths_table points). cbn. lia.
Defined.

(** ** Degrees and radians *)

(** X30. [toDegrees] and [toRadians] undo each other, in both orders. *)
Theorem degrees_radians_round_trip (v : R) :
  toDegrees (toRadians v) = v /\ toRadians (toDegrees v) = v.
Proof.
  pose proof PI_RGT_0 as Hpi.
  unfold toDegrees, toRadians, Math.PI. split; field; lra.
Qed.
